(** * crous-monitor: the reconciliation run of [monitor.py]

    A shallow embedding of [src/monitor.py]: the retrying fetch, the state
    file, the set differences sorted with [key=int], the notification and
    the save, followed by the properties of the specification that concern
    them.

    Modelling conventions.
    - A Python [str] is a [string] whose characters are code points below
      256.  Python integers are [Z].
    - A JSON document is a [json] value; numbers with a fraction or an
      exponent, Infinity and NaN (Python floats) are not represented: the
      properties are about state files without them.
    - A Python [set] is a [gset].  Its iteration order, which CPython
      derives from randomised string hashes, is an input of the run
      ([iteration]): nothing is assumed about it beyond enumerating the
      set.
    - Effects are threaded through a state-and-exception monad [M] over the
      state file and a chronological log of the requests, sleeps, saves and
      messages of the run.
    - [requests], [BeautifulSoup], [json] and the clock are libraries: a
      [world] gives the outcome of each HTTP request, whether Telegram
      accepts a message, and the time; a [page] is what the extractor
      reads off the HTML; a [file] is what [json.load] makes of the state
      file.  In [main] writing the state file is taken to succeed;
      [main_io] is [main] with a write that can fail.
    - [int] refuses a decimal literal of more than 4300 digits, the
      default of the interpreter (sys.set_int_max_str_digits).
    - The extractor itself, [parse_ids_and_count] on the HTML, is embedded
      in [Extractor], with the two patterns of the program on strings of
      code points below 256. *)

From stdpp Require Import base tactics option list gmap strings sorting.
From Stdlib Require Import ZArith Ascii String.

Local Open Scope string_scope.
Local Open Scope list_scope.
Local Open Scope Z_scope.

(** ** Exceptions and results *)

Inductive exn :=
| RequestException (cause : string)  (* requests.get/post, raise_for_status *)
| JSONDecodeError                    (* json.load *)
| ValueError                         (* int("x") *)
| TypeError                          (* int(None), set(5), ", ".join([1]) *)
| AttributeError                     (* [].get *)
| OSError (cause : string).          (* open, write *)

Inductive result (A : Type) :=
| Ok (a : A)
| Raise (e : exn).
Arguments Ok {A} a.
Arguments Raise {A} e.

Definition rbind {A B} (r : result A) (k : A → result B) : result B :=
  match r with
  | Ok a => k a
  | Raise e => Raise e
  end.

Fixpoint rmap {A B} (f : A → result B) (l : list A) : result (list B) :=
  match l with
  | [] => Ok []
  | x :: l' => rbind (f x) (λ y, rbind (rmap f l') (λ ys, Ok (y :: ys)))
  end.

(** ** [int(s)] on a string, base 10

    Leading and trailing white space is stripped, one sign is allowed, and
    the digits may be grouped by single underscores (PEP 515).  The white
    space [int] strips is not all of [str.isspace]: the separators 28 to 31
    are left in place and make the literal invalid.  A literal of more
    than 4300 digits is refused, the default of
    sys.get_int_max_str_digits(). *)

Module PyInt.

Definition code (c : ascii) : Z := Z.of_N (N_of_ascii c).

(* str.isspace on the code points below 256 *)
Definition is_space (c : ascii) : bool :=
  let n := code c in
  ((9 <=? n) && (n <=? 13)) || ((28 <=? n) && (n <=? 32))
  || (n =? 133) || (n =? 160).

Definition digit (c : ascii) : option Z :=
  let n := code c in
  if (48 <=? n) && (n <=? 57) then Some (n - 48) else None.

Definition is_digit (c : ascii) : bool :=
  match digit c with Some _ => true | None => false end.

(* the white space [int] strips, on the code points below 256 *)
Definition is_blank (c : ascii) : bool :=
  let n := code c in
  ((9 <=? n) && (n <=? 13)) || (n =? 32) || (n =? 133) || (n =? 160).

Fixpoint lstrip (cs : list ascii) : list ascii :=
  match cs with
  | c :: cs' => if is_blank c then lstrip cs' else cs
  | [] => []
  end.

Definition strip (cs : list ascii) : list ascii :=
  rev (lstrip (rev (lstrip cs))).

(* the digits after the first one: [acc] is the value read so far and the
   previous character was a digit *)
Fixpoint more_digits (acc : Z) (cs : list ascii) : option Z :=
  match cs with
  | [] => Some acc
  | c :: cs' =>
      match digit c with
      | Some d => more_digits (10 * acc + d) cs'
      | None =>
          if Ascii.eqb c "_" then
            match cs' with
            | c' :: cs'' =>
                match digit c' with
                | Some d => more_digits (10 * acc + d) cs''
                | None => None
                end
            | [] => None
            end
          else None
      end
  end.

Definition digits (cs : list ascii) : option Z :=
  match cs with
  | c :: cs' =>
      match digit c with
      | Some d => more_digits d cs'
      | None => None
      end
  | [] => None
  end.

(* the number a literal writes *)
Definition parse (s : string) : option Z :=
  match strip (list_ascii_of_string s) with
  | c :: cs =>
      if Ascii.eqb c "-" then Z.opp <$> digits cs
      else if Ascii.eqb c "+" then digits cs
      else digits (c :: cs)
  | [] => None
  end.

(* a non-empty string of the characters 0 to 9 *)
Definition digit_string (s : string) : bool :=
  match list_ascii_of_string s with
  | [] => false
  | cs => forallb is_digit cs
  end.

(* the digits of a literal, which the limit counts *)
Definition digit_count (s : string) : Z :=
  Z.of_nat (List.length (List.filter is_digit (list_ascii_of_string s))).

End PyInt.

(* sys.get_int_max_str_digits(), by default *)
Definition int_max_str_digits : Z := 4300.

Definition py_int (s : string) : result Z :=
  if int_max_str_digits <? PyInt.digit_count s then Raise ValueError
  else match PyInt.parse s with
       | Some z => Ok z
       | None => Raise ValueError
       end.

(* a string within the limit of [int]: at most 4300 characters *)
Definition short (s : string) : Prop :=
  Z.of_nat (String.length s) ≤ int_max_str_digits.

(** ** JSON documents and Python dictionaries *)

#[warnings="-register-all"] Inductive json :=
| JNull
| JBool (b : bool)
| JInt (z : Z)
| JStr (s : string)
| JArr (l : list json)
| JObj (kv : list (string * json)).

Abbreviation dict := (list (string * json)).

(* d.get(k, default) *)
Fixpoint dict_get (k : string) (default : json) (d : dict) : json :=
  match d with
  | [] => default
  | (k', v) :: d' => if String.eqb k k' then v else dict_get k default d'
  end.

(* d[k] = v : an existing key keeps its place, a new one goes last *)
Fixpoint dict_set (k : string) (v : json) (d : dict) : dict :=
  match d with
  | [] => [(k, v)]
  | (k', v') :: d' =>
      if String.eqb k k' then (k', v) :: d' else (k', v') :: dict_set k v d'
  end.

(* bool(v) *)
Definition truthy (v : json) : bool :=
  match v with
  | JNull => false
  | JBool b => b
  | JInt z => negb (z =? 0)
  | JStr s => negb (String.eqb s "")
  | JArr l => match l with [] => false | _ => true end
  | JObj kv => match kv with [] => false | _ => true end
  end.

(** ** Sets of hashable values

    [True] and [1], [False] and [0] are equal and hash alike, so that a set
    holds them as one element: a boolean is kept as its integer. *)

Inductive atom :=
| ANone
| AInt (z : Z)
| AStr (s : string).

#[global] Instance atom_eq_dec : EqDecision atom.
Proof. solve_decision. Defined.

#[global] Instance atom_countable : Countable atom.
Proof.
  refine (inj_countable'
    (λ a, match a with
          | ANone => inl ()
          | AInt z => inr (inl z)
          | AStr s => inr (inr s)
          end)
    (λ x, match x with
          | inl _ => ANone
          | inr (inl z) => AInt z
          | inr (inr s) => AStr s
          end) _).
  by intros [].
Defined.

Definition hashable (v : json) : result atom :=
  match v with
  | JNull => Ok ANone
  | JBool b => Ok (AInt (if b then 1 else 0))
  | JInt z => Ok (AInt z)
  | JStr s => Ok (AStr s)
  | JArr _ | JObj _ => Raise TypeError
  end.

Definition chars (s : string) : list string :=
  (λ c, String c EmptyString) <$> list_ascii_of_string s.

(* set(v) : a list gives its elements, a string its characters, a dict its
   keys; nothing else is iterable *)
Definition py_set (v : json) : result (gset atom) :=
  match v with
  | JArr l => rbind (rmap hashable l) (λ xs, Ok (list_to_set xs))
  | JStr s => Ok (list_to_set (AStr <$> chars s))
  | JObj kv => Ok (list_to_set (AStr ∘ fst <$> kv))
  | JNull | JBool _ | JInt _ => Raise TypeError
  end.

(* int(x) *)
Definition atom_int (a : atom) : result Z :=
  match a with
  | ANone => Raise TypeError
  | AInt z => Ok z
  | AStr s => py_int s
  end.

(* ", ".join(l) accepts strings only; the text itself is left to the
   renderer, the list of strings is what it joins *)
Definition join (l : list atom) : result (list string) :=
  rmap (λ a, match a with AStr s => Ok s | _ => Raise TypeError end) l.

(** The order in which the interpreter enumerates a set. *)
Record iteration := {
  enumerate : ∀ A `{Countable A}, gset A → list A;
  enumerate_elements :
    ∀ A `{Countable A} (X : gset A), enumerate A X ≡ₚ elements X
}.
Arguments enumerate _ {A _ _} X.

Definition elements_order : iteration :=
  {| enumerate := λ A _ _ X, elements X;
     enumerate_elements := λ A _ _ X, reflexivity (elements X) |}.

(* the opposite enumeration *)
Definition reverse_order : iteration :=
  {| enumerate := λ A _ _ X, reverse (elements X);
     enumerate_elements := λ A _ _ X, reverse_Permutation (elements X) |}.

(** ** [sorted(xs, key=...)]

    The keys are computed first, in the order of the input, and the first
    one that fails raises; the sort is stable. *)

Section sorted.
Context {A : Type} (key : A → result Z).

Fixpoint insert_by (k : Z) (x : A) (l : list (Z * A)) : list (Z * A) :=
  match l with
  | [] => [(k, x)]
  | (k', y) :: l' =>
      if (k <=? k') then (k, x) :: l else (k', y) :: insert_by k x l'
  end.

Definition sort_keyed (l : list (Z * A)) : list (Z * A) :=
  foldr (λ kx acc, insert_by kx.1 kx.2 acc) [] l.

Definition decorate (l : list A) : result (list (Z * A)) :=
  rmap (λ x, rbind (key x) (λ k, Ok (k, x))) l.

Definition sorted (l : list A) : result (list A) :=
  rbind (decorate l) (λ kl, Ok ((sort_keyed kl).*2)).
End sorted.

(** ** The world of a run, its state and its effects *)

(* what [parse_ids_and_count] reads off a page: the identifiers matched by
   ACCOM_RE in the links and in the text, and the number in front of
   the words "logement(s) trouve" when COUNT_RE finds it *)
Record page := {
  listing_ids : gset string;
  shown_count : option Z
}.

(* the state file as [json.load] sees it *)
Inductive file :=
| Malformed
| Document (v : json).

Record world := {
  http_get : nat → string + page;  (* the i-th request: a failure and its
                                      cause, or the page *)
  telegram : option string;        (* the cause for which sendMessage fails *)
  clock : Z;                       (* int(time.time()) *)
  hash_order : iteration
}.

Inductive part :=
| CountChanged (old : json) (new : Z)
| NewListings (ids : list string)
| Disappeared (ids : list string).

(* the two messages of [main], before their rendering as text *)
Inductive message :=
| Initialized (current : Z)
| Update (parts : list part).

Inductive event :=
| Get (i : nat)
| Sleep (secs : Z)
| Save (state : json)
| Send (text : message).

Record store := {
  disk : option file;
  log : list event
}.

Definition M (A : Type) : Type := store → result A * store.

#[global] Instance M_ret : MRet M := λ A a s, (Ok a, s).

#[global] Instance M_bind : MBind M := λ A B k m s,
  match m s with
  | (Ok a, s') => k a s'
  | (Raise e, s') => (Raise e, s')
  end.

Definition raise {A} (e : exn) : M A := λ s, (Raise e, s).

Definition lift {A} (r : result A) : M A := λ s, (r, s).

Definition emit (e : event) : M unit :=
  λ s, (Ok (), {| disk := disk s; log := log s ++ [e] |}).

(** ** The functions of [monitor.py] *)

Definition tg_send (w : world) (text : message) : M unit :=
  emit (Send text);;
  match telegram w with
  | Some cause => raise (RequestException cause)
  | None => mret ()
  end.

Definition default_state : json :=
  JObj [("initialized", JBool false); ("seen_ids", JArr []);
        ("last_count", JNull)].

Definition load_state : M json := λ s,
  match disk s with
  | None => (Ok default_state, s)
  | Some Malformed => (Raise JSONDecodeError, s)
  | Some (Document v) => (Ok v, s)
  end.

Definition save_state (state : json) : M unit := λ s,
  (Ok (), {| disk := Some (Document state); log := log s ++ [Save state] |}).

(* the loop of [fetch_html] over the rest of range(3); [raise last] with
   [last] still None would be a TypeError *)
Fixpoint fetch_loop (w : world) (range : list nat) (last : option exn)
  : M page :=
  match range with
  | i :: range' =>
      emit (Get i);;
      match http_get w i with
      | inr text => mret text
      | inl cause =>
          emit (Sleep (2 * (Z.of_nat i + 1)));;
          fetch_loop w range' (Some (RequestException cause))
      end
  | [] =>
      match last with
      | Some e => raise e
      | None => raise TypeError
      end
  end.

Definition fetch_html (w : world) : M page := fetch_loop w (seq 0 3) None.

Definition parse_ids_and_count (html : page) : gset string * option Z :=
  (listing_ids html, shown_count html).

(* ids_now - ids_old and ids_old - ids_now, for a set of strings and a set
   of any hashable values *)
Definition new_set (ids_now : gset string) (ids_old : gset atom)
  : gset string :=
  filter (λ s, AStr s ∉ ids_old) ids_now.

Definition removed_set (ids_old : gset atom) (ids_now : gset string)
  : gset atom :=
  ids_old ∖ set_map AStr ids_now.

(* sorted(ids_now, key=int) if ids_now else [] *)
Definition seen_list (w : world) (ids_now : gset string)
  : result (list string) :=
  if decide (ids_now = ∅) then Ok []
  else sorted py_int (enumerate (hash_order w) ids_now).

(* count_now != count_old, for count_old other than None *)
Definition differs (count_now : Z) (count_old : json) : bool :=
  match count_old with
  | JInt z => negb (count_now =? z)
  | JBool b => negb (count_now =? (if b then 1 else 0))
  | _ => true
  end.

Definition count_json (count : option Z) : json :=
  match count with
  | Some c => JInt c
  | None => JNull
  end.

Definition is_null (v : json) : bool :=
  match v with JNull => true | _ => false end.

Definition nonempty {A} (l : list A) : bool :=
  match l with [] => false | _ => true end.

(* lines 104 and 105 *)
Definition new_ids (w : world) (ids_now : gset string) (ids_old : gset atom)
  : result (list string) :=
  sorted py_int (enumerate (hash_order w) (new_set ids_now ids_old)).

Definition removed_ids (w : world) (ids_old : gset atom)
  (ids_now : gset string) : result (list atom) :=
  sorted atom_int (enumerate (hash_order w) (removed_set ids_old ids_now)).

(* lines 94 to 102: the first run stores the baseline, then confirms *)
Definition first_run (w : world) (state : dict) (ids_now : gset string)
  (count_now : option Z) : M unit :=
  let state := dict_set "initialized" (JBool true) state in
  seen ← lift (seen_list w ids_now);
  let state := dict_set "seen_ids" (JArr (JStr <$> seen)) state in
  let state := dict_set "last_count" (count_json count_now) state in
  let state := dict_set "last_checked_epoch" (JInt (clock w)) state in
  save_state (JObj state);;
  tg_send w (Initialized
               (match count_now with
                | Some c => c
                | None => Z.of_nat (size ids_now)
                end)).

(* lines 104 to 127: a later run reports the differences, then stores *)
Definition update_run (w : world) (state : dict) (ids_old : gset atom)
  (count_old : json) (ids_now : gset string) (count_now : option Z)
  : M unit :=
  new_ids ← lift (new_ids w ids_now ids_old);
  removed_ids ← lift (removed_ids w ids_old ids_now);
  let parts := [] in
  let parts :=
    match count_now with
    | Some c =>
        if negb (is_null count_old) && differs c count_old
        then parts ++ [CountChanged count_old c]
        else parts
    | None => parts
    end in
  let parts :=
    if nonempty new_ids then parts ++ [NewListings new_ids]
    else parts in
  parts ← (if nonempty removed_ids
           then names ← lift (join removed_ids);
                mret (parts ++ [Disappeared names])
           else mret parts);
  (if nonempty parts then tg_send w (Update parts) else mret ());;
  seen ← lift (seen_list w ids_now);
  let state := dict_set "seen_ids" (JArr (JStr <$> seen)) state in
  let state := dict_set "last_count" (count_json count_now) state in
  let state := dict_set "last_checked_epoch" (JInt (clock w)) state in
  save_state (JObj state).

Definition main (w : world) : M unit :=
  html ← fetch_html w;
  let '(ids_now, count_now) := parse_ids_and_count html in
  state ← load_state;
  match state with
  | JObj state =>
      ids_old ← lift (py_set (dict_get "seen_ids" (JArr []) state));
      let count_old := dict_get "last_count" JNull state in
      let initialized :=
        truthy (dict_get "initialized" (JBool false) state) in
      if negb initialized
      then first_run w state ids_now count_now
      else update_run w state ids_old count_old ids_now count_now
  | _ => raise AttributeError  (* state.get on a value that is no dict *)
  end.

(* a run from a given state file *)
Definition run (w : world) (d : option file) : result unit * store :=
  main w {| disk := d; log := [] |}.

(* what the fetch of a run returns and logs *)
Definition fetched (w : world) : result page :=
  (fetch_html w {| disk := None; log := [] |}).1.

Definition fetch_log (w : world) : list event :=
  log (fetch_html w {| disk := None; log := [] |}).2.

(** ** The record the program writes

    The state file of a previous run holds these four keys, in this order;
    [load_state]'s default has the first three. *)

Record persisted := {
  initialized : bool;
  seen_ids : list string;
  last_count : option Z;
  last_checked_epoch : option Z
}.

Definition to_dict (st : persisted) : dict :=
  [("initialized", JBool (initialized st));
   ("seen_ids", JArr (JStr <$> seen_ids st));
   ("last_count", count_json (last_count st))]
  ++ match last_checked_epoch st with
     | Some t => [("last_checked_epoch", JInt t)]
     | None => []
     end.

Definition to_json (st : persisted) : json := JObj (to_dict st).

(* the set of identifiers of a record *)
Definition ids (st : persisted) : gset string := list_to_set (seen_ids st).

(** Observations on the log of a run. *)

Definition saves (l : list event) : list json :=
  omap (λ e, match e with Save d => Some d | _ => None end) l.

Definition sends (l : list event) : list message :=
  omap (λ e, match e with Send m => Some m | _ => None end) l.

Definition sleeps (l : list event) : list Z :=
  omap (λ e, match e with Sleep n => Some n | _ => None end) l.

Definition requests (l : list event) : list nat :=
  omap (λ e, match e with Get i => Some i | _ => None end) l.

Definition sent_parts (l : list event) : list part :=
  mjoin ((λ m, match m with Update ps => ps | Initialized _ => [] end)
           <$> sends l).

(* the identifiers announced as new, those announced as gone, and the
   change of count announced *)
Definition added (l : list event) : list string :=
  mjoin (omap (λ p, match p with NewListings xs => Some xs | _ => None end)
              (sent_parts l)).

Definition removed (l : list event) : list string :=
  mjoin (omap (λ p, match p with Disappeared xs => Some xs | _ => None end)
              (sent_parts l)).

Definition count_change (l : list event) : option (json * Z) :=
  head (omap (λ p, match p with
                   | CountChanged old new => Some (old, new)
                   | _ => None
                   end)
             (sent_parts l)).

(** Lines 95 to 97 and 124 to 126: the three keys every save rewrites. *)
Definition updated (w : world) (seen : list string) (count_now : option Z)
  (state : dict) : dict :=
  dict_set "last_checked_epoch" (JInt (clock w))
    (dict_set "last_count" (count_json count_now)
       (dict_set "seen_ids" (JArr (JStr <$> seen)) state)).

(** Lines 107 to 119: the parts of the update message. *)
Definition parts_of (count_old : json) (count_now : option Z)
  (new_ids removed_names : list string) : list part :=
  match count_now with
  | Some c =>
      if negb (is_null count_old) && differs c count_old
      then [CountChanged count_old c] else []
  | None => []
  end
  ++ (if nonempty new_ids then [NewListings new_ids] else [])
  ++ (if nonempty removed_names then [Disappeared removed_names] else []).

(** Sortedness of a list by the integers [key] gives its elements. *)
Definition ascending_by {A} (key : A → result Z) (R : relation Z)
  (l : list A) : Prop :=
  ∃ ks, rmap key l = Ok ks ∧ Sorted R ks.

Definition key_of {A} (key : A → result Z) (x : A) : Z :=
  match key x with Ok k => k | Raise _ => 0 end.

(* a document is initialized when bool(state.get("initialized")) holds *)
Definition is_initialized (d : option file) : bool :=
  match d with
  | Some (Document (JObj kv)) =>
      truthy (dict_get "initialized" (JBool false) kv)
  | _ => false
  end.

(* what [load_state] returns for a given state file *)
Definition loaded (d : option file) : result json :=
  (load_state {| disk := d; log := [] |}).1.

(* every identifier of the set is accepted by [int] *)
Definition numeric (X : gset string) : Prop :=
  ∀ s, s ∈ X → ∃ k, py_int s = Ok k.

(* the record a run leaves for a snapshot stored as [seen] *)
Definition stored (w : world) (seen : list string) (p : page) : persisted :=
  {| initialized := true; seen_ids := seen; last_count := shown_count p;
     last_checked_epoch := Some (clock w) |}.

(** ** Sample runs *)

Definition snapshot (l : list string) (count : option Z) : page :=
  {| listing_ids := list_to_set l; shown_count := count |}.

(* a world whose first request answers [p] *)
Definition answering (p : page) (tg : option string) : world :=
  {| http_get := λ _, inr p; telegram := tg; clock := 1700000000;
     hash_order := elements_order |}.

Definition record_of (l : list string) (count : option Z) : persisted :=
  {| initialized := true; seen_ids := l; last_count := count;
     last_checked_epoch := Some 1699990000 |}.

Definition file_of (st : persisted) : option file :=
  Some (Document (to_json st)).

(* the state file after successive runs *)
Definition runs (ws : list world) (d : option file) : option file :=
  foldl (λ d w, disk (run w d).2) d ws.

(* a saved document whose seen_ids is a duplicate-free list of strings in
   ascending order of their integers *)
Definition sorted_ids (doc : json) : Prop :=
  ∃ kv seen,
    doc = JObj kv ∧
    dict_get "seen_ids" JNull kv = JArr (JStr <$> seen) ∧
    NoDup seen ∧ ascending_by py_int Z.le seen.

Definition accepted (s : string) : bool :=
  match py_int s with Ok _ => true | Raise _ => false end.

(* three failed requests *)
Definition unreachable : world :=
  {| http_get := λ i, inl match i with
                          | O => "connection timed out"
                          | S O => "502 Bad Gateway"
                          | _ => "503 Service Unavailable"
                          end;
     telegram := None; clock := 1700000000; hash_order := elements_order |}.

(* two failed requests, then the page *)
Definition recovering (p : page) : world :=
  {| http_get := λ i, match i with
                      | O => inl "connection timed out"
                      | S O => inl "502 Bad Gateway"
                      | _ => inr p
                      end;
     telegram := None; clock := 1700000000; hash_order := elements_order |}.

(* the snapshot and the prior record of the end-to-end scenario *)
Definition sample_page : page := snapshot ["11"; "12"; "13"] (Some 3).

Definition sample_prior : persisted := record_of ["10"; "11"] (Some 2).

(* an identifier of 4301 digits, and a page that lists it *)
Definition long_id : string := string_of_list_ascii (repeat "1"%char 4301).

Definition long_page : page := snapshot [long_id] (Some 1).

(* the default of [load_state], as a record *)
Definition no_record : persisted :=
  {| initialized := false; seen_ids := []; last_count := None;
     last_checked_epoch := None |}.

(* the same world under another enumeration of sets *)
Definition with_order (o : iteration) (w : world) : world :=
  {| http_get := http_get w; telegram := telegram w; clock := clock w;
     hash_order := o |}.

(* a state file without the "initialized" key *)
Definition unmarked : json :=
  JObj [("seen_ids", JArr [JStr "1"; JStr "2"]); ("last_count", JInt 2)].

(** ** The extractor: [parse_ids_and_count] on the HTML itself

    The two patterns of the program are sequences of character classes,
    each taken once, optionally, or one or more times, with one group.
    [Regex] matches such a sequence the way [re] does: quantifiers are
    greedy and give back what they took when the rest fails, [search]
    returns the leftmost match, [finditer] the successive matches that do
    not overlap.  On the code points below 256, [\d] is the digits 0 to 9,
    [\s] is [str.isspace], and under IGNORECASE a letter of COUNT_RE
    matches itself and its capital.

    BeautifulSoup is a library: what it makes of the HTML, the href of
    every anchor that has one and the visible text, is a function given to
    the extractor. *)

Module Regex.

Inductive quantifier := One | Opt | Plus.

Record item := {
  cls : ascii → bool;
  quant : quantifier;
  in_group : bool
}.

Definition capture (it : item) (g : list ascii) (c : ascii) : list ascii :=
  if in_group it then g ++ [c] else g.

(* a match: the text of group 1 and what follows the match *)
Definition found : Type := list ascii * list ascii.

(* [it+], one character already taken: take more, longest first, and
   continue with [k] *)
Fixpoint more (it : item) (k : list ascii → list ascii → option found)
  (g s : list ascii) : option found :=
  match s with
  | c :: s' =>
      if cls it c then
        match more it k (capture it g c) s' with
        | Some r => Some r
        | None => k g s
        end
      else k g s
  | [] => k g s
  end.

(* re.match of the sequence at the head of [s] *)
Fixpoint match_items (its : list item) (g s : list ascii) : option found :=
  match its with
  | [] => Some (g, s)
  | it :: its' =>
      match quant it, s with
      | One, c :: s' =>
          if cls it c then match_items its' (capture it g c) s' else None
      | One, [] => None
      | Opt, c :: s' =>
          if cls it c then
            match match_items its' (capture it g c) s' with
            | Some r => Some r
            | None => match_items its' g s
            end
          else match_items its' g s
      | Opt, [] => match_items its' g s
      | Plus, c :: s' =>
          if cls it c then more it (match_items its') (capture it g c) s'
          else None
      | Plus, [] => None
      end
  end.

(* re.search(...).group(1): the first position where the sequence matches *)
Fixpoint search (pat : list item) (s : list ascii) : option (list ascii) :=
  match match_items pat [] s with
  | Some (g, _) => Some g
  | None =>
      match s with
      | _ :: s' => search pat s'
      | [] => None
      end
  end.

(* group(1) of the matches of re.finditer; [skip] counts the characters of
   the last match still to pass.  The patterns of the program match no
   empty text. *)
Fixpoint finditer_from (pat : list item) (skip : nat) (s : list ascii)
  : list (list ascii) :=
  match s with
  | [] => []
  | _ :: s' =>
      match skip with
      | S k => finditer_from pat k s'
      | O =>
          match match_items pat [] s with
          | Some (g, rest) =>
              g :: finditer_from pat (List.length s' - List.length rest) s'
          | None => finditer_from pat 0 s'
          end
      end
  end.

Definition finditer (pat : list item) (s : list ascii) : list (list ascii) :=
  finditer_from pat 0 s.

End Regex.

Module Extractor.
Import Regex.

Definition lit (c : ascii) : item :=
  {| cls := Ascii.eqb c; quant := One; in_group := false |}.

(* the capital of a small letter, a to z and the accented ones *)
Definition capital (c : ascii) : ascii :=
  let n := PyInt.code c in
  if ((97 <=? n) && (n <=? 122))
     || ((224 <=? n) && (n <=? 254) && negb (n =? 247))
  then ascii_of_N (Z.to_N (n - 32)) else c.

(* a letter under IGNORECASE *)
Definition letter (c : ascii) : item :=
  {| cls := λ x, Ascii.eqb x c || Ascii.eqb x (capital c);
     quant := One; in_group := false |}.

(* (\d+) and \s+, on code points below 256: the decimal digits there are 0
   to 9, the white space is that of str.isspace *)
Definition digits_group : item :=
  {| cls := PyInt.is_digit; quant := Plus; in_group := true |}.

Definition spaces : item :=
  {| cls := PyInt.is_space; quant := Plus; in_group := false |}.

Definition link_prefix : list ascii :=
  list_ascii_of_string "/tools/42/accommodations/".

(* r"/tools/42/accommodations/(\d+)" *)
Definition ACCOM_RE : list item := (lit <$> link_prefix) ++ [digits_group].

(* the letter e with an acute accent, U+00E9 *)
Definition e_acute : ascii := ascii_of_N 233.

(* r"(\d+)\s+logement(?:s)?\s+trouv<e acute>", re.IGNORECASE *)
Definition COUNT_RE : list item :=
  [digits_group; spaces]
  ++ (letter <$> list_ascii_of_string "logement")
  ++ [{| cls := cls (letter "s"); quant := Opt; in_group := false |}; spaces]
  ++ (letter <$> list_ascii_of_string "trouv")
  ++ [letter e_acute].

Record soup := {
  hrefs : list string;     (* a.get("href", "") for a in select("a[href]") *)
  visible_text : string    (* get_text(" ", strip=True) *)
}.

Definition group1 (m : option (list ascii)) : option string :=
  string_of_list_ascii <$> m.

Definition parse_ids_and_count (bs : string → soup) (html : string)
  : result (gset string * option Z) :=
  let ids : gset string := ∅ in
  let ids :=
    foldl (λ ids href,
             match group1 (search ACCOM_RE (list_ascii_of_string href)) with
             | Some id => ids ∪ {[ id ]}
             | None => ids
             end)
          ids (hrefs (bs html)) in
  let ids :=
    foldl (λ ids m, ids ∪ {[ string_of_list_ascii m ]})
          ids (finditer ACCOM_RE (list_ascii_of_string html)) in
  match group1 (search COUNT_RE
                  (list_ascii_of_string (visible_text (bs html)))) with
  | Some digits => rbind (py_int digits) (λ count, Ok (ids, Some count))
  | None => Ok (ids, None)
  end.

(* the page of the run, as the extractor reads it off the HTML *)
Definition page_of (bs : string → soup) (html : string) : result page :=
  rbind (parse_ids_and_count bs html)
        (λ r, Ok {| listing_ids := r.1; shown_count := r.2 |}).

End Extractor.

(** ** What the two patterns match

    The texts that ACCOM_RE and COUNT_RE match, said without the engine. *)

Module Patterns.
Import Regex Extractor.

(* what a run of characters taken by [it] adds to the group *)
Definition captured (it : item) (run : list ascii) : list ascii :=
  if in_group it then run else [].

Definition is_digits (ds : list ascii) : Prop :=
  Forall (λ c, PyInt.is_digit c = true) ds.

(* what follows does not begin with a digit *)
Definition no_digit_ahead (rest : list ascii) : Prop :=
  ∀ c rest', rest = c :: rest' → PyInt.is_digit c = false.

(* lines 66 to 75: the identifiers of the anchors, then those of the HTML *)
Definition ids_of (bs : string → soup) (html : string) : gset string :=
  foldl (λ ids m, ids ∪ {[ string_of_list_ascii m ]})
    (foldl (λ ids href,
              match group1 (search ACCOM_RE (list_ascii_of_string href)) with
              | Some id => ids ∪ {[ id ]}
              | None => ids
              end) ∅ (hrefs (bs html)))
    (finditer ACCOM_RE (list_ascii_of_string html)).

(* [id] follows the path of a listing in [s], and no digit follows it *)
Definition linked (id s : string) : Prop :=
  ∃ pre post,
    list_ascii_of_string s
    = pre ++ link_prefix ++ list_ascii_of_string id ++ post ∧
    no_digit_ahead post.

(* no match of ACCOM_RE can begin at the first [n] positions of [s]:
   none of them holds a slash followed by a t *)
Definition pathless (n : nat) (s : list ascii) : Prop :=
  ∀ i, (i < n)%nat →
       ¬ (s !! i = Some "/"%char ∧ s !! S i = Some "t"%char).

(* a listing path followed by a digit begins [s] *)
Definition link_at (s : list ascii) : Prop :=
  ∃ d rest, PyInt.is_digit d = true ∧ s = link_prefix ++ d :: rest.

(* [x] is the letter [c], small or capital *)
Definition same_letter (c x : ascii) : Prop := x = c ∨ x = capital c.

Definition spelled (p w : list ascii) : Prop := Forall2 same_letter p w.

Definition is_spaces (sp : list ascii) : Prop :=
  Forall (λ c, PyInt.is_space c = true) sp.

Definition logement : list ascii := list_ascii_of_string "logement".

Definition trouve : list ascii := list_ascii_of_string "trouv" ++ [e_acute].

(* [s] begins with the digits [g], white space, the word logement or
   logements, white space and the word trouve with its accent, in any
   letter case; [rest] follows *)
Definition count_phrase (g rest s : list ascii) : Prop :=
  ∃ sp1 w pl sp2 f,
    s = g ++ sp1 ++ w ++ pl ++ sp2 ++ f ++ rest ∧
    g ≠ [] ∧ is_digits g ∧
    sp1 ≠ [] ∧ is_spaces sp1 ∧
    spelled logement w ∧ (pl = [] ∨ spelled ["s"%char] pl) ∧
    sp2 ≠ [] ∧ is_spaces sp2 ∧
    spelled trouve f.

(* the optional s of COUNT_RE *)
Definition plural : item :=
  {| cls := cls (letter "s"); quant := Opt; in_group := false |}.

(* a page with one anchor, a link outside any anchor and a count *)
Definition sample_html : string :=
  "<a href='https://x.fr/tools/42/accommodations/5?x=1'>T1</a>"
  +:+ "<div data-url='/tools/42/accommodations/77'></div>"
  +:+ "<p>Page 1 sur 2 : 3 logements trouv" +:+ String e_acute "s</p>".

(* what BeautifulSoup reads off it: the href of its anchor and its text *)
Definition sample_soup (html : string) : soup :=
  {| hrefs := ["https://x.fr/tools/42/accommodations/5?x=1"];
     visible_text :=
       "T1 Page 1 sur 2 : 3 logements trouv" +:+ String e_acute "s" |}.

(* the page of the sample HTML *)
Definition sample_extracted : page :=
  {| listing_ids := {[ "5"; "77" ]}; shown_count := Some 3 |}.

(* every page the site answers is read off some HTML by the extractor, and
   its identifiers are short *)
Definition served (bs : string → soup) (w : world) : Prop :=
  ∀ i p, http_get w i = inr p →
         (∃ html, page_of bs html = Ok p) ∧ ∀ s, s ∈ listing_ids p → short s.

(* no state file, or a record of the program whose identifiers are short
   strings of digits *)
Definition kept (d : option file) : Prop :=
  d = None ∨
  ∃ st, d = Some (Document (to_json st)) ∧
        ∀ s, s ∈ seen_ids st → PyInt.digit_string s = true ∧ short s.

End Patterns.

(** ** A write of the state file that can fail

    [save_state] opens the state file for writing, which empties it, and
    dumps the document into it.  Either step can raise (the file cannot be
    opened; a string of the document cannot be encoded, the disk is full),
    and nothing in [main] catches it.  What a write does is given by the
    environment, document by document. *)

Inductive write :=
| Written                              (* the file holds the document *)
| NotOpened (e : exn)                  (* open raised: the file is as it was *)
| Interrupted (e : exn) (remains : file). (* json.dump or the close raised:
                                          [remains] is what the file holds *)

Definition save_state_io (io : json → write) (state : json) : M unit := λ s,
  match io state with
  | Written => save_state state s
  | NotOpened e => (Raise e, s)
  | Interrupted e remains => (Raise e, {| disk := Some remains; log := log s |})
  end.

(* lines 94 to 102 *)
Definition first_run_io (io : json → write) (w : world) (state : dict)
  (ids_now : gset string) (count_now : option Z) : M unit :=
  let state := dict_set "initialized" (JBool true) state in
  seen ← lift (seen_list w ids_now);
  let state := dict_set "seen_ids" (JArr (JStr <$> seen)) state in
  let state := dict_set "last_count" (count_json count_now) state in
  let state := dict_set "last_checked_epoch" (JInt (clock w)) state in
  save_state_io io (JObj state);;
  tg_send w (Initialized
               (match count_now with
                | Some c => c
                | None => Z.of_nat (size ids_now)
                end)).

(* lines 104 to 127 *)
Definition update_run_io (io : json → write) (w : world) (state : dict)
  (ids_old : gset atom) (count_old : json) (ids_now : gset string)
  (count_now : option Z) : M unit :=
  new_ids ← lift (new_ids w ids_now ids_old);
  removed_ids ← lift (removed_ids w ids_old ids_now);
  let parts := [] in
  let parts :=
    match count_now with
    | Some c =>
        if negb (is_null count_old) && differs c count_old
        then parts ++ [CountChanged count_old c]
        else parts
    | None => parts
    end in
  let parts :=
    if nonempty new_ids then parts ++ [NewListings new_ids]
    else parts in
  parts ← (if nonempty removed_ids
           then names ← lift (join removed_ids);
                mret (parts ++ [Disappeared names])
           else mret parts);
  (if nonempty parts then tg_send w (Update parts) else mret ());;
  seen ← lift (seen_list w ids_now);
  let state := dict_set "seen_ids" (JArr (JStr <$> seen)) state in
  let state := dict_set "last_count" (count_json count_now) state in
  let state := dict_set "last_checked_epoch" (JInt (clock w)) state in
  save_state_io io (JObj state).

Definition main_io (io : json → write) (w : world) : M unit :=
  html ← fetch_html w;
  let '(ids_now, count_now) := parse_ids_and_count html in
  state ← load_state;
  match state with
  | JObj state =>
      ids_old ← lift (py_set (dict_get "seen_ids" (JArr []) state));
      let count_old := dict_get "last_count" JNull state in
      let initialized :=
        truthy (dict_get "initialized" (JBool false) state) in
      if negb initialized
      then first_run_io io w state ids_now count_now
      else update_run_io io w state ids_old count_old ids_now count_now
  | _ => raise AttributeError
  end.

Definition run_io (io : json → write) (w : world) (d : option file)
  : result unit * store :=
  main_io io w {| disk := d; log := [] |}.

(* a disk that takes no document with a note *)
Definition refusing (doc : json) : write :=
  match doc with
  | JObj kv =>
      if is_null (dict_get "note" JNull kv) then Written
      else Interrupted (OSError "No space left on device") Malformed
  | _ => Written
  end.

(* a world with the two identifiers of one integer, under an enumeration *)
Definition twins (o : iteration) (tg : option string) : world :=
  with_order o (answering (snapshot ["7"; "07"] (Some 2)) tg).

(** ** Runs in a row *)

(* the results of successive runs *)
Fixpoint outcomes (ws : list world) (d : option file) : list (result unit) :=
  match ws with
  | [] => []
  | w :: ws' => let r := run w d in r.1 :: outcomes ws' (disk r.2)
  end.

(* a run that ends well, or on a failed request *)
Definition benign (r : result unit) : Prop :=
  r = Ok () ∨ ∃ cause, r = Raise (RequestException cause).

(* a record with a key of another tool *)
Definition annotated : dict :=
  [("initialized", JBool true); ("seen_ids", JArr [JStr "11"; JStr "12"]);
   ("last_count", JInt 2); ("note", JStr "keep")].

(* a record whose list holds a number *)
Definition mistyped : dict :=
  [("initialized", JBool true); ("seen_ids", JArr [JStr "11"; JInt 12]);
   ("last_count", JInt 2)].

(** ** Proof automation *)

(* unfold the monad of a run *)
Ltac run_monad :=
  cbv [mbind M_bind mret M_ret raise lift emit save_state tg_send load_state];
  simpl.

(** * Properties *)

(** ** A string of digits is accepted by [int] *)

Module PyIntFacts.
Import PyInt.

Lemma is_digit_not_space c : is_digit c = true → is_space c = false.
Proof. by destruct c as [[] [] [] [] [] [] [] []]. Qed.

Lemma is_digit_not_blank c : is_digit c = true → is_blank c = false.
Proof. by destruct c as [[] [] [] [] [] [] [] []]. Qed.

Lemma is_digit_not_sign c :
  is_digit c = true → Ascii.eqb c "-" = false ∧ Ascii.eqb c "+" = false.
Proof. by destruct c as [[] [] [] [] [] [] [] []]. Qed.

Lemma is_digit_digit c : is_digit c = true → ∃ d, digit c = Some d ∧ 0 ≤ d.
Proof.
  unfold is_digit, digit. case_match; [|done].
  intros _. case_match; [|done]. eexists; split; [done|]. lia.
Qed.

Lemma more_digits_all acc cs :
  0 ≤ acc → forallb is_digit cs = true →
  ∃ z, more_digits acc cs = Some z ∧ 0 ≤ z.
Proof.
  revert acc. induction cs as [|c cs IH]; intros acc Hacc Hcs; simpl in *.
  - eauto.
  - apply andb_prop in Hcs as [Hc Hcs].
    destruct (is_digit_digit c Hc) as (d & -> & Hd).
    apply IH; [lia | done].
Qed.

Lemma lstrip_digits cs : forallb is_digit cs = true → lstrip cs = cs.
Proof.
  destruct cs as [|c cs]; simpl; [done|].
  intros [Hc _]%andb_prop. by rewrite (is_digit_not_blank c Hc).
Qed.

Lemma strip_digits cs : forallb is_digit cs = true → strip cs = cs.
Proof.
  intros Hcs. unfold strip. rewrite (lstrip_digits cs Hcs).
  rewrite lstrip_digits; [apply rev_involutive|].
  rewrite forallb_forall in Hcs. apply forallb_forall.
  intros c Hc. apply Hcs. by apply in_rev.
Qed.

Lemma parse_digit_string s :
  digit_string s = true → ∃ z, parse s = Some z ∧ 0 ≤ z.
Proof.
  unfold digit_string, parse.
  destruct (list_ascii_of_string s) as [|c cs] eqn:E; [done|].
  intros Hcs. rewrite (strip_digits _ Hcs).
  simpl in Hcs. apply andb_prop in Hcs as [Hc Hcs].
  destruct (is_digit_not_sign c Hc) as [-> ->].
  unfold digits. destruct (is_digit_digit c Hc) as (d & -> & Hd).
  by apply more_digits_all.
Qed.
End PyIntFacts.

(** ** [rmap] *)

Lemma rmap_Ok_Forall2 {A B} (f : A → result B) l ys :
  rmap f l = Ok ys ↔ Forall2 (λ x y, f x = Ok y) l ys.
Proof.
  revert ys. induction l as [|x l IH]; intros ys; simpl.
  - split; [intros [= <-]; constructor | by inversion 1].
  - split.
    + destruct (f x) as [y|] eqn:Hx; [simpl|done].
      destruct (rmap f l) as [ys'|] eqn:Hl; [simpl|done].
      intros [= <-]. constructor; [done | by apply IH].
    + inversion 1 as [|? y ? ys' Hx Hl]; subst. rewrite Hx; simpl.
      apply IH in Hl. by rewrite Hl.
Qed.

Lemma rmap_Raise {A B} (f : A → result B) l e :
  rmap f l = Raise e → ∃ x, x ∈ l ∧ f x = Raise e.
Proof.
  induction l as [|x l IH]; simpl; [done|].
  destruct (f x) as [y|e'] eqn:Hx; simpl.
  - destruct (rmap f l) as [ys|e'']; simpl; [done|].
    intros [= ->]. destruct IH as (x' & ? & ?); [done|].
    exists x'. split; [by right | done].
  - intros [= ->]. exists x. split; [by left | done].
Qed.

Lemma rmap_total {A B} (f : A → result B) l :
  (∀ x, x ∈ l → ∃ y, f x = Ok y) → ∃ ys, rmap f l = Ok ys.
Proof.
  induction l as [|x l IH]; intros Hl; simpl; [by eexists|].
  destruct (Hl x) as [y ->]; [by left|]. simpl.
  destruct IH as [ys ->]; [|by eexists].
  intros x' ?. apply Hl. by right.
Qed.

Lemma StronglySorted_fmap_inv {A B} (f : A → B) (R : relation B) l :
  StronglySorted R (f <$> l) → StronglySorted (λ a b, R (f a) (f b)) l.
Proof.
  induction l as [|x l IH]; simpl; [constructor|].
  inversion 1 as [|? ? Hl Hx]; subst.
  constructor; [by apply IH|]. by rewrite Forall_fmap in Hx.
Qed.

(** ** [sorted]: a sorted rearrangement, or the first failure *)

Section sorted_facts.
Context {A : Type} (key : A → result Z).

Let R : relation (Z * A) := λ a b, a.1 ≤ b.1.

Lemma insert_by_Permutation k (x : A) l : insert_by k x l ≡ₚ (k, x) :: l.
Proof.
  induction l as [|[k' y] l IH]; simpl; [done|].
  case_match; [done|]. rewrite IH. apply Permutation_swap.
Qed.

Lemma sort_keyed_Permutation (l : list (Z * A)) : sort_keyed l ≡ₚ l.
Proof.
  induction l as [|[k x] l IH]; simpl; [done|].
  by rewrite insert_by_Permutation, IH.
Qed.

Lemma insert_by_sorted k (x : A) l :
  StronglySorted R l → StronglySorted R (insert_by k x l).
Proof.
  induction 1 as [|[k' y] l Hl IH Hy]; simpl.
  - repeat constructor.
  - destruct (Z.leb_spec k k').
    + constructor; [by constructor|].
      constructor; [done|].
      eapply Forall_impl; [exact Hy|]. unfold R. simpl. intros; lia.
    + constructor; [done|].
      rewrite insert_by_Permutation. constructor; [|done].
      unfold R. simpl. lia.
Qed.

Lemma sort_keyed_sorted (l : list (Z * A)) :
  StronglySorted R (sort_keyed l).
Proof.
  induction l as [|[k x] l IH]; simpl; [constructor|].
  by apply insert_by_sorted.
Qed.

Lemma decorate_Ok l kl :
  decorate key l = Ok kl ↔
  Forall2 (λ x kx, key x = Ok kx.1 ∧ kx.2 = x) l kl.
Proof.
  unfold decorate. rewrite rmap_Ok_Forall2.
  split; intros H; induction H as [|x [k y] ? ? Hx]; constructor;
    try done; simpl in *; destruct (key x); simpl in *.
  - injection Hx as -> ->. by split.
  - discriminate.
  - destruct Hx as [[= ->] ->]. done.
  - by destruct Hx.
Qed.

Lemma decorate_keys l kl :
  decorate key l = Ok kl → kl.*2 = l ∧ rmap key l = Ok kl.*1.
Proof.
  rewrite decorate_Ok, rmap_Ok_Forall2.
  induction 1 as [|x [k y] ? ? [Hk Hy] _ [IH1 IH2]]; simpl in *.
  - split; [done | constructor].
  - split; [by f_equal | by constructor].
Qed.

(** the result of [sorted]: a rearrangement of the input whose keys
    ascend *)
Lemma sorted_Ok l r :
  sorted key l = Ok r → r ≡ₚ l ∧ ascending_by key Z.le r.
Proof.
  unfold sorted. destruct (decorate key l) as [kl|] eqn:Hkl; [simpl|done].
  intros [= <-]. destruct (decorate_keys _ _ Hkl) as [Hl _].
  split.
  - by rewrite sort_keyed_Permutation, Hl.
  - exists (sort_keyed kl).*1. split.
    + assert (Forall (λ kx, key kx.2 = Ok kx.1) (sort_keyed kl)) as Hs.
      { rewrite sort_keyed_Permutation. apply decorate_Ok in Hkl.
        clear Hl. induction Hkl as [|? [] ? ? []]; constructor; simpl in *;
          [congruence | done]. }
      apply rmap_Ok_Forall2. clear Hkl Hl.
      induction Hs as [|[k x] s Hx Hs IH]; simpl; constructor; done.
    + apply StronglySorted_Sorted.
      apply (StronglySorted_fmap _ R Z.le); [by intros ? ? H|].
      apply sort_keyed_sorted.
Qed.

Lemma sorted_Raise l e :
  sorted key l = Raise e → ∃ x, x ∈ l ∧ key x = Raise e.
Proof.
  unfold sorted, decorate.
  destruct (rmap _ l) as [|e'] eqn:Hl; simpl; [done|].
  intros [= ->]. apply rmap_Raise in Hl as (x & ? & Hx).
  exists x. split; [done|]. destruct (key x); simpl in *; congruence.
Qed.

Lemma sorted_total l :
  (∀ x, x ∈ l → ∃ k, key x = Ok k) → ∃ r, sorted key l = Ok r.
Proof.
  intros Hl. unfold sorted, decorate.
  destruct (rmap_total (λ x, rbind (key x) (λ k, Ok (k, x))) l) as [kl ->].
  - intros x Hx. destruct (Hl x Hx) as [k ->]. by eexists.
  - by eexists.
Qed.

Lemma ascending_by_keys R' l :
  ascending_by key R' l ↔
  Forall (λ x, ∃ k, key x = Ok k) l ∧ Sorted R' (key_of key <$> l).
Proof.
  unfold ascending_by. split.
  - intros (ks & Hks & Hs). apply rmap_Ok_Forall2 in Hks.
    assert (key_of key <$> l = ks) as ->.
    { clear Hs. induction Hks as [|x k ? ? Hk]; simpl; [done|].
      unfold key_of at 1. rewrite Hk. by f_equal. }
    split; [|done]. clear Hs.
    induction Hks; constructor; eauto.
  - intros [Hl Hs]. exists (key_of key <$> l). split; [|done].
    apply rmap_Ok_Forall2. clear Hs.
    induction Hl as [|x ? [k Hk]]; simpl; constructor; [|done].
    unfold key_of. by rewrite Hk.
Qed.

(** distinct keys make the order strict *)
Lemma sorted_strict l r :
  sorted key l = Ok r → NoDup l →
  (∀ x y, x ∈ l → y ∈ l → key x = key y → x = y) →
  ascending_by key Z.lt r.
Proof.
  intros Hr Hnd Hinj. destruct (sorted_Ok _ _ Hr) as [Hp Hs].
  apply ascending_by_keys in Hs as [Hk Hs].
  apply ascending_by_keys. split; [done|].
  assert (NoDup r) as Hndr by by rewrite Hp.
  assert (∀ x y, x ∈ r → y ∈ r → key x = key y → x = y) as Hinjr.
  { intros x y. rewrite !Hp. apply Hinj. }
  clear Hr Hp Hnd Hinj l.
  apply (Sorted_StronglySorted _) in Hs.
  apply StronglySorted_Sorted.
  induction r as [|x r IH]; simpl in *; [constructor|].
  inversion Hs as [|? ? Hs' Hx]; subst.
  inversion Hndr as [|? ? Hxr Hndr']; subst.
  inversion Hk as [|? ? [kx Hkx] Hk']; subst.
  constructor.
  - apply IH; [done..|]. intros y z ? ?. apply Hinjr; by right.
  - rewrite Forall_fmap in Hx |- *. rewrite Forall_forall in Hx, Hk'.
    apply Forall_forall. intros y Hy. simpl.
    specialize (Hx y Hy). simpl in Hx.
    destruct (Hk' y Hy) as [ky Hky].
    destruct (decide (key_of key x = key_of key y)) as [Heq|]; [|lia].
    exfalso. apply Hxr.
    rewrite (Hinjr x y); [done | by left | by right |].
    unfold key_of in Heq. rewrite Hkx, Hky in Heq. congruence.
Qed.

End sorted_facts.

(** ** Uniqueness of the sorted list when the keys are distinct *)

Section unique.
Context {A : Type} (key : A → result Z).

Lemma ascending_unique l1 l2 :
  l1 ≡ₚ l2 →
  (∀ x y, x ∈ l1 → y ∈ l1 → key x = key y → x = y) →
  ascending_by key Z.le l1 → ascending_by key Z.le l2 → l1 = l2.
Proof.
  intros Hp Hinj [Hk1 Hs1]%ascending_by_keys [Hk2 Hs2]%ascending_by_keys.
  apply (Sorted_StronglySorted _) in Hs1, Hs2.
  apply (StronglySorted_unique_strong
           (λ a b, key_of key a ≤ key_of key b)).
  - intros x y Hx Hy ? ?. rewrite Forall_forall in Hk1, Hk2.
    destruct (Hk1 x Hx) as [kx Hkx], (Hk2 y Hy) as [ky Hky].
    apply Hinj; [done | by rewrite Hp |].
    unfold key_of in *. rewrite Hkx, Hky in *. f_equal. lia.
  - by apply StronglySorted_fmap_inv in Hs1.
  - by apply StronglySorted_fmap_inv in Hs2.
  - done.
Qed.

Lemma sorted_canonical l l' :
  l ≡ₚ l' →
  (∀ x y, x ∈ l → y ∈ l → key x = key y → x = y) →
  ascending_by key Z.le l → sorted key l' = Ok l.
Proof.
  intros Hp Hinj Hs. destruct (sorted_total key l') as [r Hr].
  { intros x Hx. apply ascending_by_keys in Hs as [Hk _].
    rewrite Forall_forall in Hk. apply Hk. by rewrite Hp. }
  rewrite Hr. f_equal. destruct (sorted_Ok _ _ _ Hr) as [Hpr Hsr].
  symmetry. apply ascending_unique; [by rewrite Hpr | done..].
Qed.

Lemma ascending_strict l :
  NoDup l → (∀ x y, x ∈ l → y ∈ l → key x = key y → x = y) →
  ascending_by key Z.le l → ascending_by key Z.lt l.
Proof.
  intros Hnd Hinj Hs.
  pose proof (sorted_canonical l l (reflexivity l) Hinj Hs) as Hl.
  by apply (sorted_strict key l l).
Qed.
(** so that the order in which the set is enumerated is irrelevant *)
Lemma sorted_order_irrelevant l l' r :
  l ≡ₚ l' →
  (∀ x y, x ∈ l → y ∈ l → key x = key y → x = y) →
  sorted key l = Ok r → sorted key l' = Ok r.
Proof.
  intros Hp Hinj [Hpr Hs]%sorted_Ok.
  apply sorted_canonical; [by rewrite Hpr | | done].
  intros x y. rewrite !Hpr. apply Hinj.
Qed.
End unique.

(** ** Enumerations of a set *)

Section sets.
Context (o : iteration) `{Countable A}.
Implicit Types X : gset A.

Lemma enumerate_elem X x : x ∈ enumerate o X ↔ x ∈ X.
Proof. by rewrite (enumerate_elements o), elem_of_elements. Qed.

Lemma enumerate_NoDup X : NoDup (enumerate o X).
Proof. rewrite (enumerate_elements o). apply NoDup_elements. Qed.

Lemma enumerate_empty : enumerate o (∅ : gset A) = [].
Proof.
  apply Permutation_nil_r. by rewrite (enumerate_elements o), elements_empty.
Qed.

End sets.

Lemma ascending_by_nil {A} (key : A → result Z) R : ascending_by key R [].
Proof. exists []. split; [done | constructor]. Qed.

(** ** The list of identifiers a save writes *)

Lemma seen_list_Ok w X l :
  seen_list w X = Ok l → l ≡ₚ elements X ∧ ascending_by py_int Z.le l.
Proof.
  unfold seen_list. case_decide as HX.
  - intros [= <-]. subst X. rewrite elements_empty.
    split; [done | apply ascending_by_nil].
  - intros [Hp Hs]%sorted_Ok. split; [|done].
    by rewrite Hp, (enumerate_elements (hash_order w)).
Qed.

Lemma seen_list_set w X l : seen_list w X = Ok l → list_to_set l = X.
Proof.
  intros [Hp _]%seen_list_Ok. apply set_eq. intros x.
  by rewrite elem_of_list_to_set, Hp, elem_of_elements.
Qed.

Lemma seen_list_NoDup w X l : seen_list w X = Ok l → NoDup l.
Proof. intros [Hp _]%seen_list_Ok. rewrite Hp. apply NoDup_elements. Qed.

Lemma seen_list_Raise w X e :
  seen_list w X = Raise e →
  e = ValueError ∧ ∃ x, x ∈ X ∧ py_int x = Raise ValueError.
Proof.
  unfold seen_list. case_decide; [done|].
  intros (x & Hx & Hk)%sorted_Raise. apply enumerate_elem in Hx.
  assert (e = ValueError) as ->.
  { unfold py_int in Hk.
    destruct (_ <? _); [congruence|]. destruct (PyInt.parse x); congruence. }
  eauto.
Qed.

Lemma seen_list_total w X :
  (∀ x, x ∈ X → ∃ k, py_int x = Ok k) → ∃ l, seen_list w X = Ok l.
Proof.
  intros HX. unfold seen_list. case_decide; [by eexists|].
  apply sorted_total. intros x Hx. apply HX. by apply enumerate_elem in Hx.
Qed.

(** ** A stored list of strings *)

Lemma py_set_strings l :
  py_set (JArr (JStr <$> l)) = Ok (list_to_set (AStr <$> l)).
Proof.
  assert (rmap hashable (JStr <$> l) = Ok (AStr <$> l)) as Hl.
  { induction l as [|x l IH]; csimpl; [done|]. by rewrite IH. }
  unfold py_set. by rewrite Hl.
Qed.

Lemma elem_of_strings (l : list string) s :
  AStr s ∈ (list_to_set (AStr <$> l) : gset atom) ↔ s ∈ l.
Proof.
  rewrite elem_of_list_to_set, list_elem_of_fmap. split.
  - by intros (s' & [= ->] & ?).
  - eauto.
Qed.

Lemma new_set_strings (X : gset string) l :
  new_set X (list_to_set (AStr <$> l)) = X ∖ list_to_set l.
Proof.
  apply set_eq. intros s. unfold new_set.
  rewrite elem_of_filter, elem_of_difference, elem_of_strings.
  rewrite elem_of_list_to_set. tauto.
Qed.

Lemma removed_set_strings l (X : gset string) :
  removed_set (list_to_set (AStr <$> l)) X = set_map AStr (list_to_set l ∖ X).
Proof.
  apply set_eq. intros a. unfold removed_set.
  rewrite elem_of_difference, elem_of_list_to_set, list_elem_of_fmap.
  rewrite !elem_of_map. split.
  - intros [(s & -> & Hs) Hnot]. exists s. split; [done|].
    apply elem_of_difference. split; [by apply elem_of_list_to_set|].
    intros HX. apply Hnot. by exists s.
  - intros (s & -> & [Hs Hnot]%elem_of_difference).
    apply elem_of_list_to_set in Hs. split; [by exists s|].
    by intros (s' & [= <-] & ?).
Qed.

(** the removed identifiers of a stored list of strings: the atoms sorted
    are strings, [join] accepts them, and they enumerate the difference in
    ascending order *)
Lemma removed_strings (o : iteration) (Y : gset string) r :
  sorted atom_int (enumerate o (set_map AStr Y : gset atom)) = Ok r →
  ∃ names, r = AStr <$> names ∧ join r = Ok names ∧
           names ≡ₚ elements Y ∧ ascending_by py_int Z.le names.
Proof.
  intros [Hp Hs]%sorted_Ok.
  assert (∀ a, a ∈ r ↔ ∃ s, a = AStr s ∧ s ∈ Y) as Hr.
  { intros a. by rewrite Hp, enumerate_elem, elem_of_map. }
  assert (NoDup r) as Hnd by (rewrite Hp; apply enumerate_NoDup).
  assert (∃ names, r = AStr <$> names) as [names ->].
  { assert (Forall (λ a, ∃ s, a = AStr s) r) as Hstr.
    { apply Forall_forall. intros a [s [-> _]]%Hr. by exists s. }
    clear -Hstr. induction Hstr as [|a r [s ->] _ [names ->]].
    - by exists [].
    - by exists (s :: names). }
  exists names. split; [done|]. split; [|split].
  - unfold join. clear. induction names as [|s names IH]; csimpl; [done|].
    by rewrite IH.
  - apply NoDup_Permutation.
    + by apply (NoDup_fmap_1 AStr).
    + apply NoDup_elements.
    + intros s. rewrite elem_of_elements. split.
      * intros Hs'. destruct (Hr (AStr s)) as [(s' & [= <-] & ?) _]; [|done].
        by apply list_elem_of_fmap_2.
      * intros Hs'. destruct (Hr (AStr s)) as [_ Hin].
        assert (AStr s ∈ AStr <$> names) as Ha by (apply Hin; eauto).
        apply list_elem_of_fmap in Ha as (s' & [= <-] & ?). done.
  - destruct Hs as (ks & Hks & Hsorted). exists ks. split; [|done].
    rewrite <- Hks. clear. induction names as [|s names IH]; csimpl; [done|].
    by rewrite IH.
Qed.

(** ** The equations of a run *)

Lemma fetch_html_run w s :
  fetch_html w s =
  (fetched w, {| disk := disk s; log := log s ++ fetch_log w |}).
Proof.
  unfold fetched, fetch_log, fetch_html. simpl seq. unfold fetch_loop.
  run_monad.
  destruct (http_get w 0); simpl; rewrite <- ?app_assoc; [|done].
  destruct (http_get w 1); simpl; rewrite <- ?app_assoc; [|done].
  destruct (http_get w 2); simpl; rewrite <- ?app_assoc; done.
Qed.

Lemma fetch_log_quiet w :
  saves (fetch_log w) = [] ∧ sends (fetch_log w) = [].
Proof.
  unfold fetch_log, fetch_html. simpl seq. unfold fetch_loop. run_monad.
  by destruct (http_get w 0), (http_get w 1), (http_get w 2).
Qed.

Lemma first_run_eq w state X c s :
  first_run w state X c s =
  match seen_list w X with
  | Raise e => (Raise e, s)
  | Ok seen =>
      let doc :=
        JObj (updated w seen c (dict_set "initialized" (JBool true) state)) in
      (match telegram w with
       | Some cause => Raise (RequestException cause)
       | None => Ok ()
       end,
       {| disk := Some (Document doc);
          log := log s ++ [Save doc;
                           Send (Initialized
                                   (match c with
                                    | Some n => n
                                    | None => Z.of_nat (size X)
                                    end))] |})
  end.
Proof.
  unfold first_run, updated. run_monad.
  destruct (seen_list w X); [simpl|done].
  rewrite <- app_assoc. by destruct (telegram w).
Qed.

Lemma update_run_eq w state old cold X c s :
  update_run w state old cold X c s =
  match new_ids w X old with
  | Raise e => (Raise e, s)
  | Ok new =>
  match removed_ids w old X with
  | Raise e => (Raise e, s)
  | Ok rem =>
  match (if nonempty rem then join rem else Ok []) with
  | Raise e => (Raise e, s)
  | Ok names =>
      let parts := parts_of cold c new names in
      let s' := if nonempty parts
                then {| disk := disk s; log := log s ++ [Send (Update parts)] |}
                else s in
      match (if nonempty parts then telegram w else None) with
      | Some cause => (Raise (RequestException cause), s')
      | None =>
          match seen_list w X with
          | Raise e => (Raise e, s')
          | Ok seen =>
              let doc := JObj (updated w seen c state) in
              (Ok (), {| disk := Some (Document doc);
                         log := log s' ++ [Save doc] |})
          end
      end
  end end end.
Proof.
  unfold update_run, updated, parts_of. run_monad.
  destruct (new_ids w X old) as [new|]; [simpl|done].
  destruct (removed_ids w old X) as [rem|]; [simpl|done].
  destruct rem as [|a rem]; simpl.
  - destruct c as [n|]; [destruct (negb (is_null cold) && differs n cold)|];
      destruct new; simpl;
      try destruct (telegram w); simpl; try done;
      destruct (seen_list w X); simpl; try done; by destruct s.
  - destruct (join (a :: rem)) as [names|] eqn:Hj; [simpl|done].
    assert (nonempty names = true) as Hne.
    { unfold join in Hj. simpl in Hj. destruct a; try done.
      simpl in Hj. destruct (rmap _ rem); simpl in Hj; [|done].
      by injection Hj as <-. }
    rewrite Hne.
    destruct c as [n|]; [destruct (negb (is_null cold) && differs n cold)|];
      destruct new; simpl;
      try destruct (telegram w); simpl; try done;
      destruct (seen_list w X); simpl; rewrite <- ?app_assoc; done.
Qed.

Lemma load_state_run s : load_state s = (loaded (disk s), s).
Proof. unfold loaded, load_state. simpl. by destruct (disk s) as [[]|]. Qed.

Lemma run_eq w d :
  run w d =
  let s := {| disk := d; log := fetch_log w |} in
  match fetched w with
  | Raise e => (Raise e, s)
  | Ok p =>
      match loaded d with
      | Raise e => (Raise e, s)
      | Ok (JObj kv) =>
          match py_set (dict_get "seen_ids" (JArr []) kv) with
          | Raise e => (Raise e, s)
          | Ok ids_old =>
              if truthy (dict_get "initialized" (JBool false) kv)
              then update_run w kv ids_old (dict_get "last_count" JNull kv)
                     (listing_ids p) (shown_count p) s
              else first_run w kv (listing_ids p) (shown_count p) s
          end
      | Ok _ => (Raise AttributeError, s)
      end
  end.
Proof.
  unfold run, main. unfold mbind at 1, M_bind at 1.
  rewrite fetch_html_run. simpl.
  destruct (fetched w) as [p|]; [|done].
  unfold parse_ids_and_count. unfold mbind at 1, M_bind at 1.
  rewrite load_state_run. simpl.
  destruct (loaded d) as [[| | | | |kv]|]; try done.
  unfold mbind at 1, M_bind at 1, lift at 1.
  destruct (py_set _); [|done].
  by destruct (truthy _).
Qed.

(** the keys of a record of the program *)
Lemma to_dict_reads st :
  dict_get "seen_ids" (JArr []) (to_dict st) = JArr (JStr <$> seen_ids st) ∧
  dict_get "last_count" JNull (to_dict st) = count_json (last_count st) ∧
  dict_get "initialized" (JBool false) (to_dict st) = JBool (initialized st).
Proof. by destruct st as [? ? ? []]. Qed.

Lemma updated_to_dict w seen c st :
  updated w seen c (to_dict st) =
  to_dict {| initialized := initialized st; seen_ids := seen;
             last_count := c; last_checked_epoch := Some (clock w) |}.
Proof. by destruct st as [? ? ? []]. Qed.

Lemma initialized_to_dict st :
  dict_set "initialized" (JBool true) (to_dict st) =
  to_dict {| initialized := true; seen_ids := seen_ids st;
             last_count := last_count st;
             last_checked_epoch := last_checked_epoch st |}.
Proof. by destruct st as [? ? ? []]. Qed.

(** ** Runs from a record of the program *)

Lemma loaded_persisted d st :
  loaded d = Ok (to_json st) →
  d = Some (Document (to_json st)) ∨
  (d = None ∧ to_json st = default_state).
Proof.
  unfold loaded, load_state. cbn [disk fst].
  destruct d as [[|v]|]; cbn [fst]; intros Hv; [done| |].
  - injection Hv as ->. by left.
  - right. split; [done | congruence].
Qed.

Lemma loaded_initialized d st :
  loaded d = Ok (to_json st) → initialized st = true →
  d = Some (Document (to_json st)).
Proof.
  intros [?|[_ Hst]]%loaded_persisted Hi; [done|].
  destruct st as [[] ? ? []]; done.
Qed.

Lemma run_loaded w d st p :
  fetched w = Ok p → loaded d = Ok (to_json st) →
  run w d =
  let s := {| disk := d; log := fetch_log w |} in
  if initialized st
  then update_run w (to_dict st) (list_to_set (AStr <$> seen_ids st))
         (count_json (last_count st)) (listing_ids p) (shown_count p) s
  else first_run w (to_dict st) (listing_ids p) (shown_count p) s.
Proof.
  intros Hp Hd. rewrite run_eq, Hp, Hd. cbv zeta. unfold to_json.
  cbv iota beta.
  destruct (to_dict_reads st) as (-> & -> & ->).
  by rewrite py_set_strings.
Qed.

Lemma numeric_subseteq X Y : X ⊆ Y → numeric Y → numeric X.
Proof. intros HXY HY s Hs. apply HY. by apply HXY. Qed.

Lemma first_run_report w d st p :
  fetched w = Ok p → loaded d = Ok (to_json st) → initialized st = false →
  numeric (listing_ids p) →
  ∃ seen,
    seen ≡ₚ elements (listing_ids p) ∧ ascending_by py_int Z.le seen ∧
    run w d =
    (match telegram w with
     | Some cause => Raise (RequestException cause)
     | None => Ok ()
     end,
     {| disk := Some (Document (to_json (stored w seen p)));
        log := fetch_log w ++
               [Save (to_json (stored w seen p));
                Send (Initialized (match shown_count p with
                                   | Some c => c
                                   | None => Z.of_nat (size (listing_ids p))
                                   end))] |}).
Proof.
  intros Hp Hd Hi Hnum.
  destruct (seen_list_total w (listing_ids p) Hnum) as [seen Hseen].
  exists seen. destruct (seen_list_Ok _ _ _ Hseen) as [Hperm Hasc].
  split; [done|]. split; [done|].
  rewrite (run_loaded w d st p Hp Hd), Hi. cbv zeta.
  rewrite first_run_eq, Hseen. cbv zeta.
  by rewrite initialized_to_dict, updated_to_dict.
Qed.

Lemma update_run_report w d st p :
  fetched w = Ok p → loaded d = Ok (to_json st) → initialized st = true →
  numeric (ids st ∪ listing_ids p) →
  ∃ new gone seen,
    (new ≡ₚ elements (listing_ids p ∖ ids st) ∧
     ascending_by py_int Z.le new) ∧
    (gone ≡ₚ elements (ids st ∖ listing_ids p) ∧
     ascending_by py_int Z.le gone) ∧
    (seen ≡ₚ elements (listing_ids p) ∧ ascending_by py_int Z.le seen) ∧
    let parts :=
      parts_of (count_json (last_count st)) (shown_count p) new gone in
    run w d =
    match (if nonempty parts then telegram w else None) with
    | Some cause =>
        (Raise (RequestException cause),
         {| disk := d; log := fetch_log w ++ [Send (Update parts)] |})
    | None =>
        (Ok (),
         {| disk := Some (Document (to_json (stored w seen p)));
            log := fetch_log w
                   ++ (if nonempty parts then [Send (Update parts)] else [])
                   ++ [Save (to_json (stored w seen p))] |})
    end.
Proof.
  intros Hp Hd Hi Hnum.
  destruct (seen_list_total w (listing_ids p)) as [seen Hseen].
  { eapply numeric_subseteq; [|done]. apply union_subseteq_r. }
  destruct (sorted_total py_int
              (enumerate (hash_order w) (listing_ids p ∖ ids st)))
    as [new Hnew].
  { intros s [Hs _]%enumerate_elem%elem_of_difference. apply Hnum.
    apply elem_of_union. by right. }
  destruct (sorted_total atom_int
              (enumerate (hash_order w)
                 (set_map AStr (ids st ∖ listing_ids p) : gset atom)))
    as [rem Hrem].
  { intros a (s & -> & [Hs _]%elem_of_difference)%enumerate_elem%elem_of_map.
    apply Hnum. apply elem_of_union. by left. }
  destruct (removed_strings _ _ _ Hrem) as (gone & -> & Hjoin & Hgp & Hga).
  exists new, gone, seen.
  split. { apply sorted_Ok in Hnew as [Hperm ?]. split; [|done].
           by rewrite Hperm, (enumerate_elements (hash_order w)). }
  split; [done|]. split; [by apply seen_list_Ok in Hseen|].
  cbv zeta. rewrite (run_loaded w d st p Hp Hd), Hi. cbv zeta.
  rewrite update_run_eq. unfold new_ids, removed_ids.
  rewrite new_set_strings, removed_set_strings. fold (ids st).
  rewrite Hnew, Hrem.
  assert ((if nonempty (AStr <$> gone) then join (AStr <$> gone) else Ok [])
          = Ok gone) as ->.
  { rewrite Hjoin. by destruct gone. }
  cbv zeta.
  set (parts := parts_of _ _ _ _).
  destruct (nonempty parts) eqn:Hparts.
  - destruct (telegram w); [done|]. rewrite Hseen. simpl.
    rewrite updated_to_dict, <- app_assoc. unfold stored. by rewrite Hi.
  - rewrite Hseen. simpl. rewrite updated_to_dict. unfold stored.
    by rewrite Hi.
Qed.

(** ** What the log of a run shows *)

Lemma sends_app l1 l2 : sends (l1 ++ l2) = sends l1 ++ sends l2.
Proof. apply omap_app. Qed.

Lemma saves_app l1 l2 : saves (l1 ++ l2) = saves l1 ++ saves l2.
Proof. apply omap_app. Qed.

Lemma added_parts_of cold c new gone :
  mjoin (omap (λ p, match p with NewListings xs => Some xs | _ => None end)
              (parts_of cold c new gone)) = new.
Proof.
  unfold parts_of.
  destruct c as [n|]; [destruct (negb (is_null cold) && differs n cold)|];
    destruct new, gone; simpl; by rewrite ?app_nil_r.
Qed.

Lemma removed_parts_of cold c new gone :
  mjoin (omap (λ p, match p with Disappeared xs => Some xs | _ => None end)
              (parts_of cold c new gone)) = gone.
Proof.
  unfold parts_of.
  destruct c as [n|]; [destruct (negb (is_null cold) && differs n cold)|];
    destruct new, gone; simpl; by rewrite ?app_nil_r.
Qed.

Lemma count_change_parts_of cold c new gone :
  head (omap (λ p, match p with
                   | CountChanged old n => Some (old, n)
                   | _ => None
                   end) (parts_of cold c new gone)) =
  match c with
  | Some n =>
      if negb (is_null cold) && differs n cold then Some (cold, n) else None
  | None => None
  end.
Proof.
  unfold parts_of.
  destruct c as [n|]; [destruct (negb (is_null cold) && differs n cold)|];
    by destruct new, gone.
Qed.

Lemma nonempty_parts_of cold c new gone :
  nonempty (parts_of cold c new gone) = false ↔
  match c with
  | Some n => negb (is_null cold) && differs n cold
  | None => false
  end = false ∧ new = [] ∧ gone = [].
Proof.
  unfold parts_of.
  destruct c as [n|]; [destruct (negb (is_null cold) && differs n cold)|];
    destruct new, gone; simpl; split; try done;
    intros (? & ? & ?); done.
Qed.

(* the log of an update run, whether or not it reached the save *)
Lemma update_log_sends w parts rest :
  sends rest = [] →
  sends (fetch_log w ++ (if nonempty parts then [Send (Update parts)] else [])
         ++ rest) = (if nonempty parts then [Update parts] else []) ∧
  sent_parts (fetch_log w
              ++ (if nonempty parts then [Send (Update parts)] else [])
              ++ rest) = parts.
Proof.
  intros Hrest. unfold sent_parts. rewrite !sends_app, Hrest.
  destruct (fetch_log_quiet w) as [_ ->].
  destruct parts; simpl; by rewrite ?app_nil_r.
Qed.

Lemma update_run_observed w d st p :
  fetched w = Ok p → loaded d = Ok (to_json st) → initialized st = true →
  numeric (ids st ∪ listing_ids p) →
  let r := run w d in
  let l := log r.2 in
  let parts :=
    parts_of (count_json (last_count st)) (shown_count p)
      (added l) (removed l) in
  (added l ≡ₚ elements (listing_ids p ∖ ids st) ∧
   ascending_by py_int Z.le (added l)) ∧
  (removed l ≡ₚ elements (ids st ∖ listing_ids p) ∧
   ascending_by py_int Z.le (removed l)) ∧
  sent_parts l = parts ∧
  sends l = (if nonempty parts then [Update parts] else []) ∧
  ∃ seen,
    (seen ≡ₚ elements (listing_ids p) ∧ ascending_by py_int Z.le seen) ∧
    match (if nonempty parts then telegram w else None) with
    | Some cause =>
        r.1 = Raise (RequestException cause) ∧ disk r.2 = d ∧ saves l = []
    | None =>
        r.1 = Ok () ∧
        disk r.2 = Some (Document (to_json (stored w seen p))) ∧
        saves l = [to_json (stored w seen p)] ∧
        last l = Some (Save (to_json (stored w seen p)))
    end.
Proof.
  intros Hp Hd Hi Hnum.
  destruct (update_run_report w d st p Hp Hd Hi Hnum)
    as (new & gone & seen & Hnew & Hgone & Hseen & Hrun).
  cbv zeta in *. rewrite Hrun. clear Hrun.
  set (parts := parts_of _ _ new gone).
  destruct (fetch_log_quiet w) as [Hsv Hsd].
  assert (∀ l, sent_parts l = parts →
               added l = new ∧ removed l = gone) as Hobs.
  { intros l Hl. unfold added, removed. rewrite Hl. unfold parts.
    by rewrite added_parts_of, removed_parts_of. }
  destruct (nonempty parts) eqn:Hne.
  - destruct (telegram w) as [cause|]; simpl.
    + pose proof (update_log_sends w parts [] eq_refl) as [Hs Hsp].
      rewrite Hne, app_nil_r in Hs, Hsp.
      destruct (Hobs _ Hsp) as [-> ->]. fold parts. rewrite Hne.
      do 4 (split; [done|]). exists seen.
      do 3 (split; [done|]). by rewrite saves_app, Hsv.
    + pose proof (update_log_sends w parts [Save (to_json (stored w seen p))]
                    eq_refl) as [Hs Hsp].
      rewrite Hne in Hs, Hsp. simpl in Hs, Hsp.
      destruct (Hobs _ Hsp) as [-> ->]. fold parts. rewrite Hne.
      do 4 (split; [done|]). exists seen.
      do 3 (split; [done|]). split; [by rewrite saves_app, Hsv|].
      by rewrite last_app.
  - simpl.
    pose proof (update_log_sends w parts [Save (to_json (stored w seen p))]
                  eq_refl) as [Hs Hsp].
    rewrite Hne in Hs, Hsp. simpl in Hs, Hsp.
    destruct (Hobs _ Hsp) as [-> ->]. fold parts. rewrite Hne.
    do 4 (split; [done|]). exists seen.
    do 3 (split; [done|]). split; [by rewrite saves_app, Hsv|].
    by rewrite last_app.
Qed.

Lemma Permutation_elements_NoDup `{Countable A} (l : list A) (X : gset A) :
  l ≡ₚ elements X → NoDup l.
Proof. intros ->. apply NoDup_elements. Qed.

(** ** Dictionaries *)

Lemma dict_get_set k v def d : dict_get k def (dict_set k v d) = v.
Proof.
  induction d as [|[k' v'] d IH]; simpl.
  - by rewrite String.eqb_refl.
  - destruct (String.eqb k k') eqn:Hk; simpl; by rewrite Hk.
Qed.

Lemma dict_get_set_ne k k' v def d :
  k ≠ k' → dict_get k def (dict_set k' v d) = dict_get k def d.
Proof.
  intros Hne. induction d as [|[k'' v''] d IH]; simpl.
  - by apply String.eqb_neq in Hne as ->.
  - destruct (String.eqb_spec k' k'') as [->|]; simpl; [|by rewrite IH].
    by apply String.eqb_neq in Hne as ->.
Qed.

Lemma updated_seen_ids w seen c kv def :
  dict_get "seen_ids" def (updated w seen c kv) = JArr (JStr <$> seen).
Proof.
  unfold updated. rewrite !dict_get_set_ne by done. apply dict_get_set.
Qed.

Lemma updated_initialized w seen c kv def :
  dict_get "initialized" def (updated w seen c kv) =
  dict_get "initialized" def kv.
Proof. unfold updated. by rewrite !dict_get_set_ne by done. Qed.

(** ** Any run, whatever the state file holds *)

Lemma run_saves w d :
  let r := run w d in
  (saves (log r.2) = [] ∧ disk r.2 = d ∧ ∃ e, r.1 = Raise e) ∨
  ∃ kv seen c,
    NoDup seen ∧ ascending_by py_int Z.le seen ∧
    truthy (dict_get "initialized" (JBool false) kv) = true ∧
    saves (log r.2) = [JObj (updated w seen c kv)] ∧
    disk r.2 = Some (Document (JObj (updated w seen c kv))).
Proof.
  cbv zeta. rewrite run_eq. cbv zeta.
  destruct (fetch_log_quiet w) as [Hsv Hsd].
  destruct (fetched w) as [p|]; [|left; by eauto].
  destruct (loaded d) as [[| | | | |kv]|]; try (left; by eauto).
  destruct (py_set _) as [old|]; [|left; by eauto].
  destruct (truthy _) eqn:Hinit.
  - rewrite update_run_eq.
    destruct (new_ids _ _ _); [|left; by eauto].
    destruct (removed_ids _ _ _) as [rem|]; [|left; by eauto].
    destruct (if nonempty rem then join rem else Ok []); [|left; by eauto].
    cbv zeta. set (parts := parts_of _ _ _ _).
    assert (saves (log (if nonempty parts
                        then {| disk := d;
                                log := fetch_log w ++ [Send (Update parts)] |}
                        else {| disk := d; log := fetch_log w |})) = []
            ∧ disk (if nonempty parts
                    then {| disk := d;
                            log := fetch_log w ++ [Send (Update parts)] |}
                    else {| disk := d; log := fetch_log w |}) = d)
      as [Hs' Hd'].
    { destruct (nonempty parts); simpl; [|done].
      by rewrite saves_app, Hsv. }
    simpl disk in *. simpl log in *.
    destruct (if nonempty parts then telegram w else None); [left; by eauto|].
    destruct (seen_list w (listing_ids p)) as [seen|] eqn:Hseen;
      [|left; by eauto].
    right. exists kv, seen, (shown_count p).
    split; [by eapply seen_list_NoDup|].
    split; [by eapply seen_list_Ok|].
    split; [done|]. simpl. by rewrite saves_app, Hs'.
  - rewrite first_run_eq.
    destruct (seen_list w (listing_ids p)) as [seen|] eqn:Hseen;
      [|left; by eauto].
    right.
    exists (dict_set "initialized" (JBool true) kv), seen, (shown_count p).
    split; [by eapply seen_list_NoDup|].
    split; [by eapply seen_list_Ok|].
    split; [by rewrite dict_get_set|].
    simpl. by rewrite saves_app, Hsv.
Qed.

Lemma run_initialized w d :
  is_initialized d = true → is_initialized (disk (run w d).2) = true.
Proof.
  intros Hd. destruct (run_saves w d) as [(_ & -> & _)|Hsave]; [done|].
  destruct Hsave as (kv & seen & c & _ & _ & Hinit & _ & ->).
  simpl. by rewrite updated_initialized.
Qed.

Lemma runs_initialized ws d :
  is_initialized d = true → is_initialized (runs ws d) = true.
Proof.
  revert d. induction ws as [|w ws IH]; intros d Hd; simpl; [done|].
  by apply IH, run_initialized.
Qed.

Lemma first_run_observed w d st p :
  fetched w = Ok p → loaded d = Ok (to_json st) → initialized st = false →
  numeric (listing_ids p) →
  let r := run w d in
  let l := log r.2 in
  ∃ seen,
    (seen ≡ₚ elements (listing_ids p) ∧ ascending_by py_int Z.le seen) ∧
    r.1 = match telegram w with
          | Some cause => Raise (RequestException cause)
          | None => Ok ()
          end ∧
    disk r.2 = Some (Document (to_json (stored w seen p))) ∧
    saves l = [to_json (stored w seen p)] ∧
    sends l = [Initialized (match shown_count p with
                            | Some c => c
                            | None => Z.of_nat (size (listing_ids p))
                            end)] ∧
    sent_parts l = [].
Proof.
  intros Hp Hd Hi Hnum.
  destruct (first_run_report w d st p Hp Hd Hi Hnum)
    as (seen & Hperm & Hasc & Hrun).
  cbv zeta. rewrite Hrun. exists seen.
  destruct (fetch_log_quiet w) as [Hsv Hsd].
  split; [done|]. split; [done|]. split; [done|]. simpl.
  unfold sent_parts. rewrite saves_app, sends_app, Hsv, Hsd. by simpl.
Qed.

Lemma Permutation_elements_set (l : list string) (X : gset string) :
  l ≡ₚ elements X → list_to_set l = X.
Proof.
  intros Hl. apply set_eq. intros x.
  by rewrite elem_of_list_to_set, Hl, elem_of_elements.
Qed.

(** ** When the sort step fails *)

Lemma sorted_raises {A} (key : A → result Z) l :
  (∃ e, sorted key l = Raise e) ↔ ∃ x e, x ∈ l ∧ key x = Raise e.
Proof.
  split.
  - intros [e (x & ? & ?)%sorted_Raise]. eauto.
  - intros (x & e & Hx & Hk).
    destruct (sorted key l) as [r|e'] eqn:Hr; [|by eexists].
    apply sorted_Ok in Hr as [Hp [Hok _]%ascending_by_keys].
    rewrite Forall_forall in Hok. destruct (Hok x) as [k Hk'].
    + by rewrite Hp.
    + congruence.
Qed.

Lemma py_int_raises s e : py_int s = Raise e → e = ValueError.
Proof.
  unfold py_int. destruct (_ <? _); [congruence|].
  destruct (PyInt.parse s); congruence.
Qed.

(** ** Checking that identifiers are accepted *)

Lemma numeric_accepted l : forallb accepted l = true → numeric (list_to_set l).
Proof.
  intros Hl s Hs%elem_of_list_to_set%list_elem_of_In.
  rewrite forallb_forall in Hl. specialize (Hl s Hs).
  unfold accepted in Hl. destruct (py_int s) as [k|]; [by exists k | done].
Qed.

Lemma numeric_union X Y : numeric X → numeric Y → numeric (X ∪ Y).
Proof. intros HX HY s [?|?]%elem_of_union; auto. Qed.

(** ** Strings of digits and the limit of [int] *)

Lemma length_list_ascii s :
  List.length (list_ascii_of_string s) = String.length s.
Proof. induction s as [|c s IH]; simpl; [done | by rewrite IH]. Qed.

Lemma digit_count_le s : PyInt.digit_count s ≤ Z.of_nat (String.length s).
Proof.
  unfold PyInt.digit_count. rewrite <- length_list_ascii.
  pose proof (filter_length_le PyInt.is_digit (list_ascii_of_string s)).
  lia.
Qed.

Lemma digit_count_digit_string s :
  PyInt.digit_string s = true →
  PyInt.digit_count s = Z.of_nat (String.length s).
Proof.
  unfold PyInt.digit_string, PyInt.digit_count.
  rewrite <- length_list_ascii.
  destruct (list_ascii_of_string s) as [|c cs]; [done|].
  generalize (c :: cs). clear. intros cs Hcs. f_equal. f_equal.
  induction cs as [|c cs IH]; [done|]. simpl in *.
  apply andb_prop in Hcs as [-> Hcs]. by rewrite IH.
Qed.

(* a short string of digits is accepted, a long one is refused *)
Lemma py_int_digit_string s :
  PyInt.digit_string s = true → short s → ∃ k, py_int s = Ok k ∧ 0 ≤ k.
Proof.
  intros Hs Hshort.
  destruct (PyIntFacts.parse_digit_string s Hs) as (z & Hz & ?).
  exists z. unfold py_int. rewrite Hz, (digit_count_digit_string s Hs).
  unfold short in Hshort.
  destruct (Z.ltb_spec int_max_str_digits (Z.of_nat (String.length s)));
    [lia | done].
Qed.

Lemma py_int_long s :
  PyInt.digit_string s = true → ¬ short s → py_int s = Raise ValueError.
Proof.
  intros Hs Hlong. unfold py_int. rewrite (digit_count_digit_string s Hs).
  unfold short in Hlong.
  destruct (Z.ltb_spec int_max_str_digits (Z.of_nat (String.length s)));
    [done | lia].
Qed.

Lemma py_int_value s k : py_int s = Ok k → PyInt.parse s = Some k.
Proof.
  unfold py_int. destruct (_ <? _); [done|].
  destruct (PyInt.parse s); congruence.
Qed.

(** * The claims of the specification *)

(** ** C1: the save and a failed notification *)

(** Claim C1 on the code.  An initialized run finds two new listings, one
    gone and a changed count; Telegram refuses the message.  The update
    branch sends before it saves (lines 121 to 127), so the run stops at
    the failed [tg_send]: no save is attempted, the state file is the one
    the run started from, and the next load returns the prior record, not
    the snapshot.  The claim has the save attempted exactly once also
    then, as the first-run branch does (lines 98 to 101: [save_state], then
    [tg_send]). *)
Lemma failed_notification_skips_save :
  let w := answering sample_page (Some "telegram unreachable") in
  let d := file_of sample_prior in
  run w d =
  (Raise (RequestException "telegram unreachable"),
   {| disk := d;
      log := [Get 0;
              Send (Update [CountChanged (JInt 2) 3;
                            NewListings ["12"; "13"];
                            Disappeared ["10"]])] |}) ∧
  initialized sample_prior = true ∧
  saves (log (run w d).2) = [] ∧
  loaded (disk (run w d).2) = Ok (to_json sample_prior).
Proof. by vm_compute. Qed.

(** The same in general, and the sibling path.  In an initialized run that
    reaches the report the message comes before the save: when Telegram
    refuses it the run stops there with no save and the prior record in
    place; the save is reached, once and as the last step, only when
    nothing is sent or Telegram accepts the message. *)
Lemma update_sends_before_saving w d st p :
  fetched w = Ok p → loaded d = Ok (to_json st) → initialized st = true →
  numeric (ids st ∪ listing_ids p) →
  let r := run w d in
  let l := log r.2 in
  (sends l = [] ∨ telegram w = None →
   r.1 = Ok () ∧
   ∃ st', saves l = [to_json st'] ∧ last l = Some (Save (to_json st')) ∧
          loaded (disk r.2) = Ok (to_json st') ∧
          initialized st' = true ∧ ids st' = listing_ids p ∧
          last_count st' = shown_count p) ∧
  (∀ cause, sends l ≠ [] → telegram w = Some cause →
   r.1 = Raise (RequestException cause) ∧ saves l = [] ∧
   disk r.2 = d ∧ loaded (disk r.2) = Ok (to_json st)).
Proof.
  intros Hp Hd Hi Hnum r l.
  destruct (update_run_observed w d st p Hp Hd Hi Hnum)
    as (_ & _ & _ & Hsends & seen & [Hperm _] & Hend).
  fold r l in Hsends, Hend.
  set (parts := parts_of _ _ _ _) in Hsends, Hend.
  split.
  - intros Hok.
    assert ((if nonempty parts then telegram w else None) = None) as Hnone.
    { destruct (nonempty parts); [|done].
      by destruct Hok as [Hnil | ->]; [rewrite Hnil in Hsends|]. }
    rewrite Hnone in Hend. destruct Hend as (-> & -> & -> & ->).
    split; [done|]. exists (stored w seen p). do 3 (split; [done|]).
    split; [done|]. split; [|done]. by apply Permutation_elements_set.
  - intros cause Hne Htg.
    assert (nonempty parts = true) as Hparts.
    { destruct (nonempty parts); [done|]. by rewrite Hsends in Hne. }
    rewrite Hparts, Htg in Hend. destruct Hend as (-> & -> & ->).
    by rewrite Hd.
Qed.

(* the first-run branch saves before it sends: the baseline is in the
   state file although Telegram refused the confirmation *)
Lemma first_run_saves_before_sending :
  let w := answering sample_page (Some "telegram unreachable") in
  let r := run w None in
  r.1 = Raise (RequestException "telegram unreachable") ∧
  log r.2 =
  [Get 0; Save (to_json (stored w ["11"; "12"; "13"] sample_page));
   Send (Initialized 3)] ∧
  disk r.2 =
  Some (Document (to_json (stored w ["11"; "12"; "13"] sample_page))).
Proof. by vm_compute. Qed.

(** ** C2: the retries of the fetch *)

(** The loop of [fetch_html], attempt by attempt: every failure is followed
    by a sleep of twice its rank, the third one included. *)
Lemma fetch_html_backoff w s :
  fetch_html w s =
  match http_get w 0, http_get w 1, http_get w 2 with
  | inr text, _, _ =>
      (Ok text, {| disk := disk s; log := log s ++ [Get 0] |})
  | inl _, inr text, _ =>
      (Ok text, {| disk := disk s; log := log s ++ [Get 0; Sleep 2; Get 1] |})
  | inl _, inl _, inr text =>
      (Ok text,
       {| disk := disk s;
          log := log s ++ [Get 0; Sleep 2; Get 1; Sleep 4; Get 2] |})
  | inl _, inl _, inl cause =>
      (Raise (RequestException cause),
       {| disk := disk s;
          log := log s ++ [Get 0; Sleep 2; Get 1; Sleep 4; Get 2; Sleep 6] |})
  end.
Proof.
  unfold fetch_html. simpl seq. unfold fetch_loop. run_monad.
  destruct (http_get w 0), (http_get w 1), (http_get w 2); simpl;
    by rewrite <- ?app_assoc.
Qed.

(** Two failures, then the page: the page is returned after exactly two
    sleeps, of 2 and of 4. *)
Lemma fetch_html_recovering p :
  fetch_html (recovering p) {| disk := None; log := [] |} =
  (Ok p, {| disk := None; log := [Get 0; Sleep 2; Get 1; Sleep 4; Get 2] |}).
Proof. reflexivity. Qed.

(** Claim C2, at three failed requests.  The exception raised is the last
    failure, as the claim says; but the third failure is followed by a
    sleep of 6 before it is raised, where the claim has the third failure
    raised at once, with no further wait. *)
Theorem fetch_html_exhausted :
  let r := fetch_html unreachable {| disk := None; log := [] |} in
  r = (Raise (RequestException "503 Service Unavailable"),
       {| disk := None;
          log := [Get 0; Sleep 2; Get 1; Sleep 4; Get 2; Sleep 6] |}) ∧
  requests (log r.2) = [0; 1; 2]%nat ∧
  sleeps (log r.2) = [2; 4; 6].
Proof. by vm_compute. Qed.

(** ** C3: the sorted set differences *)

(** Claim C3 as stated fails.  "7" and "07" are two identifiers (ACCOM_RE
    matches both) with one integer: the list announced holds both and is
    not strictly ascending, in whichever order the set is enumerated, and
    the order in which they come depends on that enumeration. *)
Lemma equal_numbers_not_strict :
  let w := answering (snapshot ["7"; "07"] None) None in
  let w' := with_order reverse_order w in
  let d := file_of (record_of [] None) in
  (added (log (run w d).2) = ["7"; "07"] ∧
   ¬ ascending_by py_int Z.lt (added (log (run w d).2))) ∧
  (added (log (run w' d).2) = ["07"; "7"] ∧
   ¬ ascending_by py_int Z.lt (added (log (run w' d).2))).
Proof.
  assert (∀ a b, py_int a = Ok 7 → py_int b = Ok 7 →
                 ¬ ascending_by py_int Z.lt [a; b]) as Hno.
  { intros a b Ha Hb (ks & Hks & Hs). simpl in Hks.
    rewrite Ha, Hb in Hks. injection Hks as <-.
    inversion Hs as [|? ? _ Hhd]; subst. inversion Hhd; subst. lia. }
  assert (added (log (run (answering (snapshot ["7"; "07"] None) None)
                        (file_of (record_of [] None))).2) = ["7"; "07"])
    as Hadded by (by vm_compute).
  assert (added (log (run (with_order reverse_order
                             (answering (snapshot ["7"; "07"] None) None))
                        (file_of (record_of [] None))).2) = ["07"; "7"])
    as Hadded' by (by vm_compute).
  cbv zeta. rewrite Hadded, Hadded'.
  split; (split; [done | by apply Hno]).
Qed.

(** Claim C3, as amended.  In an initialized run that reaches the report,
    with A the stored identifiers and B those of the snapshot, the list
    announced as new enumerates B minus A and the list announced as gone
    enumerates A minus B, each without duplicates and in ascending (not
    necessarily strict) order of the integers.  When no two identifiers
    have the same integer, each list is strictly ascending and is the sort
    of the difference, whatever the enumeration.  For stored identifiers
    10, 11 with count 2 and a snapshot 11, 12, 13 with count 3 the message
    announces the count change (2, 3), 12 and 13 as new, 10 as gone, and,
    once Telegram has accepted it, the record saved holds 11, 12, 13 and
    count 3. *)
Theorem differences_sorted w d st p :
  fetched w = Ok p → loaded d = Ok (to_json st) → initialized st = true →
  numeric (ids st ∪ listing_ids p) →
  let l := log (run w d).2 in
  let A := ids st in
  let B := listing_ids p in
  (added l ≡ₚ elements (B ∖ A) ∧ NoDup (added l) ∧
   ascending_by py_int Z.le (added l)) ∧
  (removed l ≡ₚ elements (A ∖ B) ∧ NoDup (removed l) ∧
   ascending_by py_int Z.le (removed l)) ∧
  ((∀ x y, x ∈ A ∪ B → y ∈ A ∪ B → py_int x = py_int y → x = y) →
   (sorted py_int (elements (B ∖ A)) = Ok (added l) ∧
    ascending_by py_int Z.lt (added l)) ∧
   (sorted py_int (elements (A ∖ B)) = Ok (removed l) ∧
    ascending_by py_int Z.lt (removed l))) ∧
  (A = {["10"; "11"]} → last_count st = Some 2 →
   B = {["11"; "12"; "13"]} → shown_count p = Some 3 →
   sends l = [Update [CountChanged (JInt 2) 3; NewListings ["12"; "13"];
                      Disappeared ["10"]]] ∧
   (telegram w = None →
    disk (run w d).2 =
    Some (Document (to_json (stored w ["11"; "12"; "13"] p))))).
Proof.
  intros Hp Hd Hi Hnum l A B.
  destruct (update_run_observed w d st p Hp Hd Hi Hnum)
    as ([Hap Has] & [Hrp Hrs] & Hparts & Hsends & seen & [Hsp Hss] & Hend).
  fold l A B in Hap, Has, Hrp, Hrs, Hparts, Hsends, Hend, Hsp.
  assert (∀ X (xs : list string),
            xs ≡ₚ elements X → X ⊆ A ∪ B →
            ascending_by py_int Z.le xs →
            (∀ x y, x ∈ A ∪ B → y ∈ A ∪ B → py_int x = py_int y → x = y) →
            sorted py_int (elements X) = Ok xs ∧
            ascending_by py_int Z.lt xs) as Hcanon.
  { intros X xs Hxs HX Hasc Hinj.
    assert (∀ x y, x ∈ xs → y ∈ xs → py_int x = py_int y → x = y) as Hinj'.
    { intros x y Hx Hy. rewrite Hxs in Hx, Hy.
      apply elem_of_elements in Hx, Hy. apply Hinj; by apply HX. }
    split; [by apply sorted_canonical|].
    apply ascending_strict; [|done..].
    by apply Permutation_elements_NoDup in Hxs. }
  split. { eauto using Permutation_elements_NoDup. }
  split. { eauto using Permutation_elements_NoDup. }
  split.
  { intros Hinj. split; apply Hcanon; try done.
    - intros x [? _]%elem_of_difference. apply elem_of_union. by right.
    - intros x [? _]%elem_of_difference. apply elem_of_union. by left. }
  intros HA Hc HB Hc'.
  assert (∀ x y, x ∈ A ∪ B → y ∈ A ∪ B → py_int x = py_int y → x = y)
    as Hinj.
  { rewrite HA, HB. intros x y Hx Hy Heq.
    set_unfold in Hx. set_unfold in Hy.
    destruct_or!; subst; try done; vm_compute in Heq; done. }
  destruct (Hcanon (B ∖ A) (added l)) as [Ha _]; [done | | done..|].
  { intros x [? _]%elem_of_difference. apply elem_of_union. by right. }
  destruct (Hcanon (A ∖ B) (removed l)) as [Hr _]; [done | | done..|].
  { intros x [? _]%elem_of_difference. apply elem_of_union. by left. }
  destruct (Hcanon B seen) as [Hs _]; [done | | done..|].
  { intros x ?. apply elem_of_union. by right. }
  rewrite HA, HB in Ha, Hr. rewrite HB in Hs.
  assert (added l = ["12"; "13"]) as Hadded.
  { revert Ha. generalize (added l). by vm_compute; intros ? [= <-]. }
  assert (removed l = ["10"]) as Hremoved.
  { revert Hr. generalize (removed l). by vm_compute; intros ? [= <-]. }
  assert (seen = ["11"; "12"; "13"]) as ->.
  { revert Hs. clear. by vm_compute; intros [= <-]. }
  rewrite Hadded, Hremoved, Hc, Hc' in Hsends, Hend.
  split; [done|]. intros Htg. simpl in Hend. rewrite Htg in Hend.
  by destruct Hend as (_ & -> & _).
Qed.

Lemma differences_sorted_witness :
  let w := answering sample_page None in
  let d := file_of sample_prior in
  let l := log (run w d).2 in
  (fetched w = Ok sample_page ∧ loaded d = Ok (to_json sample_prior) ∧
   initialized sample_prior = true ∧
   numeric (ids sample_prior ∪ listing_ids sample_page)) ∧
  added l ≡ₚ elements (listing_ids sample_page ∖ ids sample_prior) ∧
  NoDup (added l) ∧ ascending_by py_int Z.le (added l).
Proof.
  intros w d l.
  assert (numeric (ids sample_prior ∪ listing_ids sample_page)) as Hnum.
  { apply numeric_union; apply numeric_accepted; reflexivity. }
  split; [repeat split; [reflexivity.. | exact Hnum] |].
  apply (differences_sorted w d sample_prior sample_page);
    [reflexivity | reflexivity | reflexivity | exact Hnum].
Defined.

(** ** C4: the first run *)

(** Claim C4 as stated fails.  The claim is for any snapshot; the first run
    sorts the identifiers of the snapshot with [key=int] before it saves
    (line 95), and [int] refuses a string of more than 4300 digits.  On a
    page that lists such an identifier, a string of digits that ACCOM_RE
    extracts, the first run raises ValueError: nothing is saved, nothing is
    sent, and the state is still uninitialized. *)
Lemma long_identifier_stops_baseline :
  let w := answering long_page None in
  let r := run w None in
  PyInt.digit_string long_id = true ∧
  long_id ∈ listing_ids long_page ∧
  (loaded None = Ok (to_json no_record) ∧ initialized no_record = false) ∧
  r = (Raise ValueError, {| disk := None; log := [Get 0] |}) ∧
  saves (log r.2) = [] ∧
  is_initialized (disk r.2) = false.
Proof.
  intros w r. split; [by vm_compute|].
  split; [apply elem_of_list_to_set; by left|]. by vm_compute.
Qed.

(** Claim C4, as amended.  A run that finds no initialized record (no
    state file, or a record whose flag is false) and a snapshot, the empty
    one included, whose identifiers [int] accepts, sends the confirmation
    message alone, with nothing announced as new or gone and no count
    compared; it saves a record with the flag set, the identifiers of the
    snapshot and its count; and from then on the flag stays set, whatever
    the later runs. *)
Theorem baseline_run w d st p :
  fetched w = Ok p → loaded d = Ok (to_json st) → initialized st = false →
  numeric (listing_ids p) →
  let r := run w d in
  let l := log r.2 in
  ((∃ n, sends l = [Initialized n]) ∧
   added l = [] ∧ removed l = [] ∧ count_change l = None) ∧
  (∃ st', disk r.2 = Some (Document (to_json st')) ∧
          saves l = [to_json st'] ∧
          initialized st' = true ∧ ids st' = listing_ids p ∧
          last_count st' = shown_count p) ∧
  (∀ ws, is_initialized (runs ws (disk r.2)) = true).
Proof.
  intros Hp Hd Hi Hnum r l.
  destruct (first_run_observed w d st p Hp Hd Hi Hnum)
    as (seen & [Hperm Hasc] & Hres & Hdisk & Hsaves & Hsends & Hparts).
  fold r l in Hres, Hdisk, Hsaves, Hsends, Hparts.
  split; [|split].
  - split; [by eexists|]. unfold added, removed, count_change.
    by rewrite Hparts.
  - exists (stored w seen p). do 3 (split; [done|]).
    split; [|done]. by apply Permutation_elements_set.
  - intros ws. apply runs_initialized. by rewrite Hdisk.
Qed.

Lemma baseline_run_witness :
  let w := answering sample_page None in
  let r := run w None in
  (fetched w = Ok sample_page ∧
   loaded None = Ok (to_json no_record) ∧
   initialized no_record = false ∧
   numeric (listing_ids sample_page)) ∧
  ((∃ n, sends (log r.2) = [Initialized n]) ∧
   added (log r.2) = [] ∧ removed (log r.2) = [] ∧
   count_change (log r.2) = None) ∧
  (∃ st', disk r.2 = Some (Document (to_json st')) ∧
          saves (log r.2) = [to_json st'] ∧
          initialized st' = true ∧ ids st' = listing_ids sample_page ∧
          last_count st' = shown_count sample_page) ∧
  (∀ ws, is_initialized (runs ws (disk r.2)) = true).
Proof.
  intros w r.
  assert (numeric (listing_ids sample_page)) as Hnum.
  { apply numeric_accepted. reflexivity. }
  split; [repeat split; [reflexivity.. | exact Hnum] |].
  apply (baseline_run w None no_record sample_page);
    [reflexivity | reflexivity | reflexivity | exact Hnum].
Defined.

(** ** C5: when a change of count is announced *)



(** ** C6: when a message is sent *)

(** Claim C6 as stated fails.  The claim has a baseline run send its
    confirmation unconditionally; the first run sorts the identifiers of
    the snapshot with [key=int] (line 95) before it sends (line 101), and
    [int] refuses a string of more than 4300 digits.  On a page that lists
    such an identifier the run is a baseline run, and it sends nothing. *)
Lemma long_identifier_no_confirmation :
  let w := answering long_page None in
  let l := log (run w None).2 in
  PyInt.digit_string long_id = true ∧
  fetched w = Ok long_page ∧
  (loaded None = Ok (to_json no_record) ∧ initialized no_record = false) ∧
  (run w None).1 = Raise ValueError ∧
  sends l = [].
Proof.
  intros w l. split; [by vm_compute|]. split; [reflexivity|].
  split; [done|]. by vm_compute.
Qed.

(** Claim C6, as amended.  In a run that reaches the report, that is a run
    on identifiers that [int] accepts, the update message is sent exactly
    when the record was initialized and the counts are both present and
    differ, or some identifier is new, or some identifier is gone; an
    initialized run sends at most one message.  A first run on such
    identifiers sends exactly the confirmation message: for the empty
    snapshot with count 0 it announces 0 listings and the record saved has
    no identifier and count 0. *)
Theorem notification_dispatch w d st p :
  fetched w = Ok p → loaded d = Ok (to_json st) →
  numeric (ids st ∪ listing_ids p) →
  let l := log (run w d).2 in
  let A := ids st in
  let B := listing_ids p in
  ((∃ parts, Update parts ∈ sends l) ↔
   initialized st = true ∧
   ((∃ a b, last_count st = Some a ∧ shown_count p = Some b ∧ a ≠ b) ∨
    B ∖ A ≠ ∅ ∨ A ∖ B ≠ ∅)) ∧
  (initialized st = true → (List.length (sends l) ≤ 1)%nat) ∧
  (initialized st = false →
   sends l = [Initialized (match shown_count p with
                           | Some c => c
                           | None => Z.of_nat (size B)
                           end)]) ∧
  (initialized st = false → B = ∅ → shown_count p = Some 0 →
   sends l = [Initialized 0] ∧
   disk (run w d).2 = Some (Document (to_json (stored w [] p)))).
Proof.
  intros Hp Hd Hnum l A B.
  destruct (initialized st) eqn:Hi.
  - destruct (update_run_observed w d st p Hp Hd Hi Hnum)
      as ([Hap _] & [Hrp _] & _ & Hsends & _).
    fold l A B in Hap, Hrp, Hsends.
    set (parts := parts_of _ _ _ _) in Hsends.
    pose proof (nonempty_parts_of (count_json (last_count st))
                  (shown_count p) (added l) (removed l)) as Hne.
    fold parts in Hne.
    assert (added l = [] ↔ B ∖ A = ∅) as Hadd.
    { split.
      - intros Hnil. rewrite Hnil in Hap. symmetry in Hap.
        apply Permutation_nil_r in Hap.
        by apply elements_empty_inv, leibniz_equiv in Hap.
      - intros Hnil. rewrite Hnil, elements_empty in Hap.
        by apply Permutation_nil_r in Hap. }
    assert (removed l = [] ↔ A ∖ B = ∅) as Hrem.
    { split.
      - intros Hnil. rewrite Hnil in Hrp. symmetry in Hrp.
        apply Permutation_nil_r in Hrp.
        by apply elements_empty_inv, leibniz_equiv in Hrp.
      - intros Hnil. rewrite Hnil, elements_empty in Hrp.
        by apply Permutation_nil_r in Hrp. }
    set (cc := match shown_count p with
               | Some n => negb (is_null (count_json (last_count st)))
                           && differs n (count_json (last_count st))
               | None => false
               end) in Hne.
    assert (cc = true ↔
            ∃ a b, last_count st = Some a ∧ shown_count p = Some b ∧ a ≠ b)
      as Hcnt.
    { unfold cc.
      destruct (shown_count p) as [b|], (last_count st) as [a|]; simpl.
      - destruct (Z.eqb_spec b a) as [->|]; simpl.
        + split; [done|]. intros (? & ? & [= <-] & [= <-] & ?). done.
        + split; [|done]. intros _. exists a, b. repeat split; congruence.
      - split; [done|]. by intros (? & ? & ? & ?).
      - split; [done|]. by intros (? & ? & ? & ? & ?).
      - split; [done|]. by intros (? & ? & ? & ?). }
    split; [|split; [|split]]; try done.
    + rewrite Hsends. destruct (nonempty parts) eqn:Hparts.
      * split; [intros _ | intros _; exists parts; by left].
        split; [done|].
        destruct cc eqn:Hcc; [left; by apply Hcnt | right].
        destruct (decide (B ∖ A = ∅)) as [HBA|]; [right | by left].
        intros HAB. apply Hadd in HBA. apply Hrem in HAB.
        destruct Hne as [_ Hne]. by discriminate Hne.
      * split; [by intros [? ?%elem_of_nil]|].
        intros [_ Hany]. destruct Hne as [Hne _].
        destruct (Hne eq_refl) as (Hc & Ha & Hr).
        apply Hadd in Ha. apply Hrem in Hr.
        destruct Hany as [Hany%Hcnt|[|]]; [congruence | done..].
    + intros _. rewrite Hsends. destruct (nonempty parts); simpl; lia.
  - destruct (first_run_observed w d st p Hp Hd Hi)
      as (seen & [Hperm _] & _ & Hdisk & _ & Hsends & _).
    { eapply numeric_subseteq; [|done]. set_solver. }
    fold l B in Hperm, Hsends.
    split; [|split; [|split]]; try done.
    + rewrite Hsends. split; [|by intros []].
      intros [parts Hin]. by apply list_elem_of_singleton in Hin.
    + intros _ HB Hc. rewrite Hsends, Hc. split; [done|].
      rewrite Hdisk. rewrite HB, elements_empty in Hperm.
      by apply Permutation_nil_r in Hperm as ->.
Qed.

Lemma notification_dispatch_witness :
  let w := answering sample_page None in
  let d := file_of sample_prior in
  let l := log (run w d).2 in
  (fetched w = Ok sample_page ∧ loaded d = Ok (to_json sample_prior) ∧
   numeric (ids sample_prior ∪ listing_ids sample_page)) ∧
  (initialized sample_prior = true ∧
   listing_ids sample_page ∖ ids sample_prior ≠ ∅) ∧
  (∃ parts, Update parts ∈ sends l) ∧
  (List.length (sends l) ≤ 1)%nat.
Proof.
  intros w d l.
  assert (numeric (ids sample_prior ∪ listing_ids sample_page)) as Hnum.
  { apply numeric_union; apply numeric_accepted; reflexivity. }
  assert (listing_ids sample_page ∖ ids sample_prior ≠ ∅) as Hnew.
  { intros Hempty.
    assert ("12" ∈ (∅ : gset string)) as []%elem_of_empty.
    rewrite <- Hempty. apply elem_of_difference. split.
    - apply elem_of_list_to_set. right. left.
    - unfold ids. rewrite elem_of_list_to_set. simpl.
      intros [?|[?|?%elem_of_nil]%elem_of_cons]%elem_of_cons; done. }
  split; [repeat split; [reflexivity.. | exact Hnum] |].
  split; [split; [reflexivity | exact Hnew] |].
  destruct (notification_dispatch w d sample_prior sample_page)
    as (Hiff & Hlen & _); [reflexivity | reflexivity | exact Hnum |].
  split; [|apply Hlen; reflexivity].
  apply Hiff. split; [reflexivity|]. right. left. exact Hnew.
Defined.

(** ** C7: a run that finds nothing changed *)

(** Claim C7.  In an initialized run whose snapshot has the stored set of
    identifiers and the stored count, nothing is announced as new or gone,
    no change of count is announced, no message is sent, and the record in
    the state file after the run has the same set of identifiers and the
    same count. *)
Theorem noop_stability w d st p :
  fetched w = Ok p → loaded d = Ok (to_json st) → initialized st = true →
  listing_ids p = ids st → shown_count p = last_count st →
  let r := run w d in
  let l := log r.2 in
  (added l = [] ∧ removed l = [] ∧ count_change l = None) ∧
  sends l = [] ∧
  ∃ st', disk r.2 = Some (Document (to_json st')) ∧
         initialized st' = true ∧ ids st' = ids st ∧
         last_count st' = last_count st.
Proof.
  intros Hp Hd Hi Hids Hcount r l.
  assert (sends l = [] ∧
          ∃ st', disk r.2 = Some (Document (to_json st')) ∧
                 initialized st' = true ∧ ids st' = ids st ∧
                 last_count st' = last_count st) as [Hsends Hst'].
  { unfold l, r. rewrite (run_loaded w d st p Hp Hd), Hi. cbv zeta.
    rewrite update_run_eq. unfold new_ids, removed_ids.
    rewrite new_set_strings, removed_set_strings. fold (ids st).
    rewrite Hids, difference_diag_L, set_map_empty, !enumerate_empty.
    cbn [sorted decorate rmap rbind sort_keyed foldr fmap list_fmap nonempty].
    assert (parts_of (count_json (last_count st)) (shown_count p) [] [] = [])
      as ->.
    { rewrite Hcount. unfold parts_of.
      destruct (last_count st); simpl; [|done]. by rewrite Z.eqb_refl. }
    cbn [nonempty]. destruct (fetch_log_quiet w) as [Hsv Hsd].
    destruct (seen_list w (ids st)) as [seen|] eqn:Hseen; simpl.
    - split; [by rewrite sends_app, Hsd|].
      rewrite updated_to_dict. eexists. split; [done|]. simpl.
      split; [done|]. split; [|done]. by eapply seen_list_set.
    - split; [done|]. exists st.
      by rewrite (loaded_initialized d st Hd Hi). }
  split; [|done]. unfold added, removed, count_change, sent_parts.
  by rewrite Hsends.
Qed.

Lemma noop_stability_witness :
  let st := record_of ["10"; "11"] (Some 2) in
  let p := snapshot ["10"; "11"] (Some 2) in
  let w := answering p None in
  let r := run w (file_of st) in
  (fetched w = Ok p ∧ loaded (file_of st) = Ok (to_json st) ∧
   initialized st = true ∧ listing_ids p = ids st ∧
   shown_count p = last_count st) ∧
  (added (log r.2) = [] ∧ removed (log r.2) = [] ∧
   count_change (log r.2) = None) ∧
  sends (log r.2) = [].
Proof.
  intros st p w r.
  split; [repeat split; reflexivity |].
  pose proof (noop_stability w (file_of st) st p) as H.
  destruct H as (Hquiet & Hnone & _);
    [reflexivity | reflexivity | reflexivity | reflexivity | reflexivity |].
  split; [exact Hquiet | exact Hnone].
Defined.

(** ** C8: loading the state file *)

(** Claim C8 as stated fails.  A state file that holds well-formed JSON is
    returned as it is, whatever its shape: [load_state] does not compare it
    with the schema of the record.  A document without the "initialized"
    key is no record of the program, yet it is loaded without error, read
    as uninitialized through the defaults of [get], and replaced by a
    baseline: the identifiers it held are dropped without a word. *)
Lemma load_state_accepts_any_document :
  (¬ ∃ st, unmarked = to_json st) ∧
  loaded (Some (Document unmarked)) = Ok unmarked ∧
  run (answering (snapshot ["3"] (Some 1)) None) (Some (Document unmarked)) =
  (Ok (),
   let doc := JObj [("seen_ids", JArr [JStr "3"]); ("last_count", JInt 1);
                    ("initialized", JBool true);
                    ("last_checked_epoch", JInt 1700000000)] in
   {| disk := Some (Document doc);
      log := [Get 0; Save doc; Send (Initialized 1)] |}).
Proof.
  split; [|split].
  - intros [st Hst]. unfold unmarked, to_json, to_dict in Hst.
    simpl in Hst. congruence.
  - done.
  - by vm_compute.
Qed.

(** Claim C8, as amended.  [load_state] leaves the store as it is.  With no
    state file it returns the uninitialized default (flag false, no
    identifier, no count); with a file that is not well-formed JSON it
    raises the decoding error, which ends the run with nothing saved,
    nothing sent and the file untouched; with a well-formed document it
    returns that document, with no check against the schema. *)
Theorem load_state_cases :
  (∀ s, load_state s = (loaded (disk s), s)) ∧
  loaded None =
    Ok (to_json {| initialized := false; seen_ids := []; last_count := None;
                   last_checked_epoch := None |}) ∧
  loaded (Some Malformed) = Raise JSONDecodeError ∧
  (∀ v, loaded (Some (Document v)) = Ok v) ∧
  (∀ w, let r := run w (Some Malformed) in
        (∀ p, fetched w = Ok p → r.1 = Raise JSONDecodeError) ∧
        (∃ e, r.1 = Raise e) ∧
        disk r.2 = Some Malformed ∧
        saves (log r.2) = [] ∧ sends (log r.2) = []).
Proof.
  split; [exact load_state_run|]. do 3 (split; [done|]).
  intros w. cbv zeta. rewrite run_eq. cbv zeta.
  change (loaded (Some Malformed)) with (Raise (A:=json) JSONDecodeError).
  destruct (fetch_log_quiet w) as [Hsv Hsd].
  destruct (fetched w) as [p|e]; simpl.
  - split; [done|]. split; [by eexists|]. done.
  - split; [done|]. split; [by eexists|]. done.
Qed.

Lemma load_state_cases_witness :
  let w := answering sample_page None in
  fetched w = Ok sample_page ∧
  (run w (Some Malformed)).1 = Raise JSONDecodeError.
Proof.
  intros w. split; [reflexivity|].
  destruct load_state_cases as (_ & _ & _ & _ & Hrun).
  destruct (Hrun w) as (Hraise & _).
  apply (Hraise sample_page). reflexivity.
Defined.

(** ** C9: the identifiers a save writes *)

(** Claim C9.  Whatever the state file holds and whatever the world does,
    every document a run saves has under "seen_ids" a list of strings
    without duplicates, in ascending order of their integers; a run that
    ends without exception has saved exactly one such document, which is
    the state file it leaves. *)
Theorem saved_ids_sorted w d :
  let r := run w d in
  (∀ doc, doc ∈ saves (log r.2) → sorted_ids doc) ∧
  (r.1 = Ok () →
   ∃ doc, disk r.2 = Some (Document doc) ∧ saves (log r.2) = [doc] ∧
          sorted_ids doc).
Proof.
  cbv zeta.
  destruct (run_saves w d) as [(Hs & _ & [e He])|Hsave].
  - rewrite Hs, He. split; [by intros ? ?%elem_of_nil | done].
  - destruct Hsave as (kv & seen & c & Hnd & Hasc & _ & Hs & Hd).
    assert (sorted_ids (JObj (updated w seen c kv))) as Hdoc.
    { exists (updated w seen c kv), seen.
      by rewrite updated_seen_ids. }
    rewrite Hs, Hd. split; [|by eauto].
    by intros doc ->%list_elem_of_singleton.
Qed.

Lemma saved_ids_sorted_witness :
  let w := answering sample_page None in
  let d := file_of sample_prior in
  let doc := to_json (stored w ["11"; "12"; "13"] sample_page) in
  doc ∈ saves (log (run w d).2) ∧ sorted_ids doc.
Proof.
  intros w d doc.
  assert (doc ∈ saves (log (run w d).2)) as Hdoc.
  { vm_compute. left. }
  split; [exact Hdoc|].
  destruct (saved_ids_sorted w d) as [Hall _].
  apply Hall. exact Hdoc.
Defined.

(** ** C10: the sort step is partial *)

(** Claim C10 as stated fails.  "+5" is not a string of digits, but [int]
    accepts it (as it accepts surrounding white space and underscores
    between digits): stored in seen_ids, it is sorted and announced as
    gone, and the run ends without exception. *)
Lemma signed_identifier_accepted :
  let w := answering (snapshot ["7"] (Some 1)) None in
  let d := file_of (record_of ["+5"] (Some 1)) in
  PyInt.digit_string "+5" = false ∧
  run w d =
  (Ok (),
   let doc := to_json (stored w ["7"] (snapshot ["7"] (Some 1))) in
   {| disk := Some (Document doc);
      log := [Get 0;
              Send (Update [NewListings ["7"]; Disappeared ["+5"]]);
              Save doc] |}).
Proof. split; by vm_compute. Qed.

(** Claim C10, as amended.  A non-empty string of at most 4300 digits is
    accepted by [int]; a longer one is refused.  Each sort of the step
    raises exactly when [int] rejects one of the identifiers it is given: a
    new one for line 104, a gone one for line 105, one of the snapshot for
    lines 95 and 124; identifiers in both sets are not sorted by lines 104
    and 105.  When every identifier, stored or in the snapshot, is a
    non-empty string of at most 4300 digits, the three sorts and the join
    return. *)
Theorem sort_step_partial w (seen : list string) (X : gset string) :
  let old : gset atom := list_to_set (AStr <$> seen) in
  let A : gset string := list_to_set seen in
  (∀ s, PyInt.digit_string s = true → short s →
        ∃ k, py_int s = Ok k ∧ 0 ≤ k) ∧
  (∀ s, PyInt.digit_string s = true → ¬ short s →
        py_int s = Raise ValueError) ∧
  ((∃ e, new_ids w X old = Raise e) ↔
   ∃ s, s ∈ X ∖ A ∧ py_int s = Raise ValueError) ∧
  ((∃ e, removed_ids w old X = Raise e) ↔
   ∃ s, s ∈ A ∖ X ∧ py_int s = Raise ValueError) ∧
  ((∃ e, seen_list w X = Raise e) ↔
   ∃ s, s ∈ X ∧ py_int s = Raise ValueError) ∧
  ((∀ s, s ∈ A ∪ X → PyInt.digit_string s = true ∧ short s) →
   ∃ new gone stored,
     new_ids w X old = Ok new ∧
     removed_ids w old X = Ok (AStr <$> gone) ∧
     join (AStr <$> gone) = Ok gone ∧
     seen_list w X = Ok stored).
Proof.
  intros old A.
  assert ((∃ e, new_ids w X old = Raise e) ↔
          ∃ s, s ∈ X ∖ A ∧ py_int s = Raise ValueError) as Hnew.
  { unfold new_ids, old. rewrite new_set_strings, sorted_raises. fold A.
    split.
    - intros (s & e & Hs%enumerate_elem & He).
      exists s. split; [done|]. by rewrite (py_int_raises _ _ He) in He.
    - intros (s & Hs & He). exists s, ValueError.
      by rewrite enumerate_elem. }
  assert ((∃ e, removed_ids w old X = Raise e) ↔
          ∃ s, s ∈ A ∖ X ∧ py_int s = Raise ValueError) as Hrem.
  { unfold removed_ids, old. rewrite removed_set_strings, sorted_raises.
    fold A. split.
    - intros (a & e & (s & -> & Hs)%enumerate_elem%elem_of_map & He).
      exists s. split; [done|]. simpl in He.
      by rewrite (py_int_raises _ _ He) in He.
    - intros (s & Hs & He). exists (AStr s), ValueError.
      rewrite enumerate_elem, elem_of_map. eauto. }
  assert ((∃ e, seen_list w X = Raise e) ↔
          ∃ s, s ∈ X ∧ py_int s = Raise ValueError) as Hseen.
  { split.
    - intros [e (_ & s & ? & ?)%seen_list_Raise]. eauto.
    - intros (s & Hs & He).
      destruct (seen_list w X) as [l|e] eqn:Hl; [|by eexists].
      apply seen_list_Ok in Hl as [Hp [Hok _]%ascending_by_keys].
      rewrite Forall_forall in Hok. destruct (Hok s) as [k Hk].
      + by rewrite Hp, elem_of_elements.
      + congruence. }
  split; [apply py_int_digit_string|]. split; [apply py_int_long|].
  do 3 (split; [done|]).
  intros Hall.
  assert (∀ s, s ∈ A ∪ X → ∃ k, py_int s = Ok k) as Hnum.
  { intros s Hs. destruct (Hall s Hs) as [Hd Hsh].
    destruct (py_int_digit_string s Hd Hsh) as (k & ? & _). eauto. }
  destruct (new_ids w X old) as [new|e] eqn:En.
  2:{ destruct Hnew as [Hnew _]. destruct Hnew as (s & Hs & He); [by eexists|].
      apply elem_of_difference in Hs as [Hs _].
      destruct (Hnum s) as [k Hk]; [|congruence].
      apply elem_of_union. by right. }
  destruct (removed_ids w old X) as [rem|e] eqn:Er.
  2:{ destruct Hrem as [Hrem _]. destruct Hrem as (s & Hs & He); [by eexists|].
      apply elem_of_difference in Hs as [Hs _].
      destruct (Hnum s) as [k Hk]; [|congruence].
      apply elem_of_union. by left. }
  destruct (seen_list w X) as [stored|e] eqn:Es.
  2:{ destruct Hseen as [Hseen _].
      destruct Hseen as (s & Hs & He); [by eexists|].
      destruct (Hnum s) as [k Hk]; [|congruence].
      apply elem_of_union. by right. }
  unfold removed_ids, old in Er. rewrite removed_set_strings in Er.
  apply removed_strings in Er as (gone & -> & Hjoin & _).
  by exists new, gone, stored.
Qed.

Lemma sort_step_partial_witness :
  let w := answering sample_page None in
  let seen := ["10"; "11"] in
  let X : gset string := listing_ids sample_page in
  (∀ s, s ∈ list_to_set seen ∪ X → PyInt.digit_string s = true ∧ short s) ∧
  ∃ new gone stored,
    new_ids w X (list_to_set (AStr <$> seen)) = Ok new ∧
    removed_ids w (list_to_set (AStr <$> seen)) X = Ok (AStr <$> gone) ∧
    join (AStr <$> gone) = Ok gone ∧
    seen_list w X = Ok stored.
Proof.
  intros w seen X.
  assert (∀ s, s ∈ list_to_set seen ∪ X →
               PyInt.digit_string s = true ∧ short s) as Hdigits.
  { intros s Hs. unfold X, sample_page, snapshot, listing_ids in Hs.
    rewrite <- list_to_set_app_L in Hs.
    apply elem_of_list_to_set in Hs. revert s Hs. apply Forall_forall.
    repeat constructor; by vm_compute. }
  split; [exact Hdigits|].
  destruct (sort_step_partial w seen X) as (_ & _ & _ & _ & _ & Htotal).
  apply Htotal. exact Hdigits.
Defined.

(** * Further properties: the extractor and whole runs *)

Import Regex Extractor Patterns.

(** ** Matching a sequence of character classes *)

Lemma capture_captured it g c : capture it g c = g ++ captured it [c].
Proof. unfold capture, captured. destruct (in_group it); by rewrite ?app_nil_r. Qed.

Lemma captured_nil it : captured it [] = [].
Proof. unfold captured. by destruct (in_group it). Qed.

Lemma captured_cons it c run :
  captured it (c :: run) = captured it [c] ++ captured it run.
Proof. unfold captured. by destruct (in_group it). Qed.

(** [it+] after its first character: some run of the class was taken and
    the rest matched from there. *)
Lemma more_inv it k g s r :
  more it k g s = Some r →
  ∃ run rest, s = run ++ rest ∧ Forall (λ c, cls it c = true) run ∧
              k (g ++ captured it run) rest = Some r.
Proof.
  revert g. induction s as [|c s IH]; intros g; simpl.
  - intros Hk. exists [], []. rewrite captured_nil, !app_nil_r.
    by repeat split.
  - destruct (cls it c) eqn:Hc.
    + destruct (more it k (capture it g c) s) as [r'|] eqn:Hm.
      * intros [= ->]. destruct (IH _ Hm) as (run & rest & -> & Hrun & Hk).
        exists (c :: run), rest. split; [done|]. split; [by constructor|].
        by rewrite captured_cons, app_assoc, <- capture_captured.
      * intros Hk. exists [], (c :: s). rewrite captured_nil, !app_nil_r.
        by repeat split.
    + intros Hk. exists [], (c :: s). rewrite captured_nil, !app_nil_r.
      by repeat split.
Qed.

(** The longest run is tried first: when the rest matches after it, that
    is the match. *)
Lemma more_greedy it k g run rest r :
  Forall (λ c, cls it c = true) run →
  (∀ c rest', rest = c :: rest' → cls it c = false) →
  k (g ++ captured it run) rest = Some r →
  more it k g (run ++ rest) = Some r.
Proof.
  intros Hrun Hrest. revert g.
  induction Hrun as [|c run Hc _ IH]; intros g Hk.
  - rewrite captured_nil, !app_nil_r in Hk.
    destruct rest as [|c rest']; simpl; [done|].
    by rewrite (Hrest c rest').
  - simpl. rewrite Hc. rewrite IH; [done|].
    by rewrite capture_captured, <- app_assoc, <- captured_cons.
Qed.

(** One step of a match, by quantifier. *)
Lemma match_items_cons_inv it its g s r :
  match_items (it :: its) g s = Some r →
  ∃ run rest, s = run ++ rest ∧ Forall (λ c, cls it c = true) run ∧
              (quant it ≠ Opt → run ≠ []) ∧
              match_items its (g ++ captured it run) rest = Some r.
Proof.
  simpl. destruct (quant it) eqn:Hq, s as [|c s']; try done.
  - destruct (cls it c) eqn:Hc; [|done]. intros Hm.
    exists [c], s'. rewrite <- capture_captured. by repeat split; [constructor|..].
  - intros Hm. exists [], []. rewrite captured_nil, !app_nil_r.
    by repeat split.
  - destruct (cls it c) eqn:Hc.
    + destruct (match_items its (capture it g c) s') as [r'|] eqn:Hm.
      * intros [= ->]. exists [c], s'. rewrite <- capture_captured.
        by repeat split; [constructor|..].
      * intros Hm'. exists [], (c :: s'). rewrite captured_nil, !app_nil_r.
        by repeat split.
    + intros Hm. exists [], (c :: s'). rewrite captured_nil, !app_nil_r.
      by repeat split.
  - destruct (cls it c) eqn:Hc; [|done].
    intros (run & rest & -> & Hrun & Hk)%more_inv.
    exists (c :: run), rest. split; [done|]. split; [by constructor|].
    split; [done|].
    by rewrite captured_cons, app_assoc, <- capture_captured.
Qed.

(** The group of a match is made of characters of the text that the
    grouped classes accept. *)
Lemma match_items_group (P : ascii → Prop) its :
  Forall (λ it, in_group it = true → ∀ c, cls it c = true → P c) its →
  ∀ g s g' rest,
    match_items its g s = Some (g', rest) →
    ∃ ds, g' = g ++ ds ∧ Forall (λ c, P c ∧ c ∈ s) ds.
Proof.
  induction 1 as [|it its Hit _ IH]; intros g s g' rest.
  - simpl. intros [= <- <-]. exists []. by rewrite app_nil_r.
  - intros (run & rest' & -> & Hrun & _ & Hm)%match_items_cons_inv.
    destruct (IH _ _ _ _ Hm) as (ds & -> & Hds).
    exists (captured it run ++ ds). split; [by rewrite app_assoc|].
    apply Forall_app. split.
    + unfold captured. destruct (in_group it) eqn:Hg; [|constructor].
      apply Forall_forall. intros c Hc. split.
      * apply Hit; [done|]. rewrite Forall_forall in Hrun. by apply Hrun.
      * apply elem_of_app. by left.
    + eapply Forall_impl; [exact Hds|]. intros c [? ?]. split; [done|].
      apply elem_of_app. by right.
Qed.

(** [search] and [finditer] return groups of matches at positions of the
    text. *)
Lemma search_inv pat s g :
  search pat s = Some g →
  ∃ pre s' rest, s = pre ++ s' ∧ match_items pat [] s' = Some (g, rest).
Proof.
  induction s as [|c s IH]; simpl.
  - destruct (match_items pat [] []) as [[g' rest]|] eqn:Hm; [|done].
    intros [= ->]. by exists [], [], rest.
  - destruct (match_items pat [] (c :: s)) as [[g' rest]|] eqn:Hm.
    + intros [= ->]. by exists [], (c :: s), rest.
    + intros (pre & s' & rest & -> & Hm')%IH. by exists (c :: pre), s', rest.
Qed.

Lemma finditer_from_inv pat skip s g :
  g ∈ finditer_from pat skip s →
  ∃ pre s' rest, s = pre ++ s' ∧ match_items pat [] s' = Some (g, rest).
Proof.
  revert skip. induction s as [|c s IH]; intros skip; simpl.
  - by intros ?%elem_of_nil.
  - destruct skip as [|k].
    + destruct (match_items pat [] (c :: s)) as [[g' rest]|] eqn:Hm.
      * intros [->|Hin]%elem_of_cons.
        -- by exists [], (c :: s), rest.
        -- destruct (IH _ Hin) as (pre & s' & rest' & -> & Hm').
           by exists (c :: pre), s', rest'.
      * intros (pre & s' & rest' & -> & Hm')%IH.
        by exists (c :: pre), s', rest'.
    + intros (pre & s' & rest' & -> & Hm')%IH.
      by exists (c :: pre), s', rest'.
Qed.

(** A position where the sequence does not match is passed over. *)
Lemma search_skip pat pre s :
  (∀ i, (i < List.length pre)%nat → match_items pat [] (drop i (pre ++ s)) = None) →
  search pat (pre ++ s) = search pat s.
Proof.
  induction pre as [|c pre IH]; intros Hpre; [done|].
  simpl. pose proof (Hpre 0%nat) as H0. simpl in H0. rewrite H0 by lia.
  apply IH. intros i Hi. apply (Hpre (S i)). simpl. lia.
Qed.

(** ** The two patterns of the extractor *)

Lemma match_lits p its g s r :
  match_items ((lit <$> p) ++ its) g s = Some r ↔
  ∃ s', s = p ++ s' ∧ match_items its g s' = Some r.
Proof.
  revert s. induction p as [|c p IH]; intros s.
  - simpl. split; [by exists s | by intros (s' & -> & ?)].
  - cbn [fmap list_fmap app match_items lit quant cls].
    destruct s as [|c' s]; [split; [done | by intros (? & ? & ?)]|].
    destruct (Ascii.eqb_spec c c') as [<-|Hne].
    + change (capture (lit c) g c) with g. rewrite IH. split.
      * intros (s' & -> & ?). by exists s'.
      * intros (s' & [= ->] & ?). by exists s'.
    + split; [done|]. by intros (s' & [= ? ?] & ?).
Qed.

(** [(\d+)] at the end of a pattern takes the whole run of digits. *)
Lemma more_digits_end g s :
  ∃ ds rest, s = ds ++ rest ∧ is_digits ds ∧ no_digit_ahead rest ∧
             more digits_group (λ g s, Some (g, s)) g s =
             Some (g ++ ds, rest).
Proof.
  revert g. induction s as [|c s IH]; intros g.
  - exists [], []. rewrite !app_nil_r.
    split; [done|]. split; [constructor|]. split; [by intros ? ?|done].
  - cbn [more]. change (cls digits_group c) with (PyInt.is_digit c).
    destruct (PyInt.is_digit c) eqn:Hc.
    + destruct (IH (capture digits_group g c))
        as (ds & rest & -> & Hds & Hrest & ->).
      exists (c :: ds), rest.
      split; [done|]. split; [by constructor|]. split; [done|].
      unfold capture. simpl. by rewrite <- app_assoc.
    + exists [], (c :: s). rewrite !app_nil_r.
      split; [done|]. split; [constructor|].
      split; [by intros ? ? [= <- <-] | done].
Qed.

Lemma digits_group_match g s g' rest :
  match_items [digits_group] g s = Some (g', rest) ↔
  ∃ ds, ds ≠ [] ∧ is_digits ds ∧ no_digit_ahead rest ∧
        s = ds ++ rest ∧ g' = g ++ ds.
Proof.
  split.
  - cbn [match_items]. change (quant digits_group) with Plus.
    destruct s as [|c s]; [done|].
    change (cls digits_group c) with (PyInt.is_digit c).
    destruct (PyInt.is_digit c) eqn:Hc; [|done].
    destruct (more_digits_end (capture digits_group g c) s)
      as (ds & rest' & -> & Hds & Hrest & ->).
    intros [= <- <-]. exists (c :: ds).
    split; [done|]. split; [by constructor|]. split; [done|].
    split; [done|]. unfold capture. simpl. by rewrite <- app_assoc.
  - intros (ds & Hne & Hds & Hrest & -> & ->).
    destruct ds as [|c ds]; [done|]. inversion Hds as [|? ? Hc Hds']; subst.
    cbn [match_items app]. change (quant digits_group) with Plus.
    change (cls digits_group c) with (PyInt.is_digit c). rewrite Hc.
    rewrite (more_greedy digits_group (λ g s, Some (g, s))
               (capture digits_group g c) ds rest (g ++ c :: ds, rest));
      [done | done | done |].
    unfold capture, captured. simpl. by rewrite <- app_assoc.
Qed.

(** A match of ACCOM_RE: the path, then all the digits that follow. *)
Lemma ACCOM_RE_match s g rest :
  match_items ACCOM_RE [] s = Some (g, rest) ↔
  s = link_prefix ++ g ++ rest ∧ g ≠ [] ∧ is_digits g ∧ no_digit_ahead rest.
Proof.
  unfold ACCOM_RE. rewrite match_lits. split.
  - intros (s' & -> & (ds & ? & ? & ? & -> & ->)%digits_group_match).
    done.
  - intros (-> & ? & ? & ?). exists (g ++ rest). split; [done|].
    apply digits_group_match. by exists g.
Qed.

(** The group of COUNT_RE is a non-empty run of digits of the text. *)
Lemma digit_groups_COUNT_RE :
  Forall (λ it, in_group it = true →
                ∀ c, cls it c = true → PyInt.is_digit c = true) COUNT_RE.
Proof. repeat constructor; simpl; done. Qed.

Lemma COUNT_RE_group s g rest :
  match_items COUNT_RE [] s = Some (g, rest) →
  g ≠ [] ∧ Forall (λ c, PyInt.is_digit c = true ∧ c ∈ s) g.
Proof.
  intros Hm. split.
  - change COUNT_RE with (digits_group :: tl COUNT_RE) in Hm.
    apply match_items_cons_inv in Hm as (run & rest' & _ & _ & Hne & Hm).
    destruct run as [|c run]; [by destruct Hne|].
    apply (match_items_group (λ _, True)) in Hm as (ds & -> & _).
    + by destruct ds.
    + apply Forall_forall. done.
  - apply (match_items_group _ _ digit_groups_COUNT_RE) in Hm
      as (ds & -> & Hds). done.
Qed.

Lemma digit_string_of_list g :
  g ≠ [] → is_digits g →
  PyInt.digit_string (string_of_list_ascii g) = true.
Proof.
  intros Hne Hg. unfold PyInt.digit_string.
  rewrite list_ascii_of_string_of_list_ascii.
  destruct g as [|c g]; [done|]. apply forallb_forall.
  intros x Hx. unfold is_digits in Hg. rewrite Forall_forall in Hg.
  by apply Hg, list_elem_of_In.
Qed.

(** *** The identifiers collected *)

Lemma elem_of_collected {A} (f : A → option string) (l : list A)
  (X : gset string) id :
  id ∈ foldl (λ ids a, match f a with
                       | Some x => ids ∪ {[ x ]}
                       | None => ids
                       end) X l ↔
  id ∈ X ∨ ∃ a, a ∈ l ∧ f a = Some id.
Proof.
  revert X. induction l as [|a l IH]; intros X; simpl.
  - split; [by left|]. intros [?|(a & ?%elem_of_nil & _)]; done.
  - rewrite IH. split.
    + intros [Hid|(a' & ? & ?)].
      * destruct (f a) as [x|] eqn:Hfa; [|by left].
        apply elem_of_union in Hid as [?| ->%elem_of_singleton]; [by left|].
        right. exists a. split; [by left | done].
      * right. exists a'. split; [by right | done].
    + intros [Hid|(a' & [->|?]%elem_of_cons & Hfa)].
      * left. destruct (f a); [|done]. apply elem_of_union. by left.
      * left. rewrite Hfa. apply elem_of_union. right.
        by apply elem_of_singleton.
      * right. by exists a'.
Qed.

Lemma elem_of_ids_of bs html id :
  id ∈ ids_of bs html ↔
  (∃ href, href ∈ hrefs (bs html) ∧
           group1 (search ACCOM_RE (list_ascii_of_string href)) = Some id) ∨
  (∃ m, m ∈ finditer ACCOM_RE (list_ascii_of_string html) ∧
        string_of_list_ascii m = id).
Proof.
  unfold ids_of.
  rewrite (elem_of_collected (λ m, Some (string_of_list_ascii m))).
  rewrite elem_of_collected. split.
  - intros [[?%elem_of_empty|?]|(m & ? & [= ?])]; [done | by left |].
    right. by exists m.
  - intros [?|(m & ? & ?)]; [left; by right|].
    right. exists m. split; [done | by f_equal].
Qed.

Lemma match_linked pre s g rest :
  match_items ACCOM_RE [] s = Some (g, rest) →
  PyInt.digit_string (string_of_list_ascii g) = true ∧
  linked (string_of_list_ascii g) (string_of_list_ascii (pre ++ s)).
Proof.
  intros (-> & Hne & Hg & Hrest)%ACCOM_RE_match. split.
  - by apply digit_string_of_list.
  - exists pre, rest. by rewrite !list_ascii_of_string_of_list_ascii.
Qed.

Lemma ids_of_sound bs html id :
  id ∈ ids_of bs html →
  PyInt.digit_string id = true ∧
  ((∃ href, href ∈ hrefs (bs html) ∧ linked id href) ∨ linked id html).
Proof.
  intros [(href & Hin & Hs)|(m & Hin & <-)]%elem_of_ids_of.
  - unfold group1 in Hs.
    destruct (search _ _) as [g|] eqn:Hg; [|done]. injection Hs as <-.
    apply search_inv in Hg as (pre & s' & rest & Heq & Hm).
    destruct (match_linked pre _ _ _ Hm) as [? Hl]. split; [done|].
    left. exists href. split; [done|].
    by rewrite <- Heq, string_of_list_ascii_of_string in Hl.
  - apply finditer_from_inv in Hin as (pre & s' & rest & Heq & Hm).
    destruct (match_linked pre _ _ _ Hm) as [? Hl]. split; [done|].
    right. by rewrite <- Heq, string_of_list_ascii_of_string in Hl.
Qed.

(** *** The number the page shows *)

(* the conversion of a run of digits *)
Lemma py_int_digits g :
  g ≠ [] → is_digits g →
  ∃ n, PyInt.parse (string_of_list_ascii g) = Some n ∧ 0 ≤ n ∧
       py_int (string_of_list_ascii g) =
       if int_max_str_digits <? Z.of_nat (List.length g)
       then Raise ValueError else Ok n.
Proof.
  intros Hne Hg.
  pose proof (digit_string_of_list g Hne Hg) as Hd.
  destruct (PyIntFacts.parse_digit_string _ Hd) as (n & Hn & ?).
  exists n. split; [done|]. split; [done|]. unfold py_int.
  rewrite (digit_count_digit_string _ Hd), Hn, <- length_list_ascii.
  by rewrite list_ascii_of_string_of_list_ascii.
Qed.

Lemma parse_count bs html :
  parse_ids_and_count bs html =
  match search COUNT_RE (list_ascii_of_string (visible_text (bs html))) with
  | Some g =>
      rbind (py_int (string_of_list_ascii g))
            (λ count, Ok (ids_of bs html, Some count))
  | None => Ok (ids_of bs html, None)
  end.
Proof.
  unfold parse_ids_and_count. fold (ids_of bs html). unfold group1.
  by destruct (search COUNT_RE _).
Qed.

Lemma parse_ids_and_count_ids bs html ids count :
  parse_ids_and_count bs html = Ok (ids, count) → ids = ids_of bs html.
Proof.
  rewrite parse_count. destruct (search _ _); [|by intros [= <- _]].
  destruct (py_int _); simpl; [by intros [= <- _] | done].
Qed.

Lemma count_group text g :
  search COUNT_RE text = Some g →
  g ≠ [] ∧ is_digits g ∧ ∃ pre rest, text = pre ++ g ++ rest.
Proof.
  intros (pre & s' & rest & -> & Hm)%search_inv.
  destruct (COUNT_RE_group _ _ _ Hm) as [Hne Hg].
  split; [done|]. split.
  { eapply Forall_impl; [exact Hg|]. by intros c [? _]. }
  change COUNT_RE with (digits_group :: tl COUNT_RE) in Hm.
  apply match_items_cons_inv in Hm as (run & rest' & -> & Hrun & _ & Hm).
  apply (match_items_group (λ _, False)) in Hm as (ds & -> & Hds).
  - destruct ds as [|d ds]; [|by apply Forall_cons_1 in Hds as [[[] _] _]].
    exists pre, rest'. by rewrite app_nil_r.
  - repeat constructor; simpl; done.
Qed.

(** *** Every link of the HTML is found *)

Lemma is_digit_not_path c :
  PyInt.is_digit c = true → c ≠ "/"%char ∧ c ≠ "t"%char.
Proof. by destruct c as [[] [] [] [] [] [] [] []]. Qed.

Lemma pathless_tail n c s : pathless (S n) (c :: s) → pathless n s.
Proof. intros Hc i Hi. apply (Hc (S i)). lia. Qed.

Lemma pathless_match c s g rest :
  match_items ACCOM_RE [] (c :: s) = Some (g, rest) →
  pathless (List.length s - List.length rest) s.
Proof.
  intros (Heq & Hne & Hg & _)%ACCOM_RE_match.
  injection Heq as -> ->. intros i Hi.
  destruct g as [|d g]; [done|].
  pose proof Hg as Hg'.
  apply Forall_cons_1 in Hg' as [[? ?]%is_digit_not_path _].
  assert (i < 24 + List.length (d :: g))%nat as Hb.
  { revert Hi. cbn [List.length]. rewrite length_app. simpl. lia. }
  clear Hi.
  do 24 (destruct i as [|i];
         [simpl; first [by intros [[=] _] | by intros [_ [=]]
                       | by intros [_ [= ->]] ]|]).
  intros [Hl _].
  change (((d :: g) ++ rest) !! i = Some "/"%char) in Hl.
  rewrite lookup_app_l in Hl by lia.
  apply list_elem_of_lookup_2 in Hl. unfold is_digits in Hg.
  rewrite Forall_forall in Hg. by destruct (is_digit_not_path _ (Hg _ Hl)).
Qed.

Lemma finditer_from_cons pat skip c s :
  finditer_from pat skip (c :: s) =
  match skip with
  | S k => finditer_from pat k s
  | O => match match_items pat [] (c :: s) with
         | Some (g, rest) =>
             g :: finditer_from pat (List.length s - List.length rest) s
         | None => finditer_from pat 0 s
         end
  end.
Proof. done. Qed.

Lemma link_prefix_head s :
  link_prefix ++ s = "/"%char :: "t"%char :: drop 2 link_prefix ++ s.
Proof. done. Qed.

Lemma finditer_from_complete ds post pre :
  ds ≠ [] → is_digits ds → no_digit_ahead post →
  ∀ skip,
    pathless skip (pre ++ link_prefix ++ ds ++ post) →
    ds ∈ finditer_from ACCOM_RE skip (pre ++ link_prefix ++ ds ++ post).
Proof.
  intros Hne Hds Hpost.
  assert (match_items ACCOM_RE [] (link_prefix ++ ds ++ post)
          = Some (ds, post)) as Hm by by apply ACCOM_RE_match.
  induction pre as [|c pre IH]; intros skip Hskip.
  - rewrite app_nil_l in *. rewrite link_prefix_head in *.
    rewrite finditer_from_cons. destruct skip as [|k].
    + rewrite Hm. apply elem_of_cons. by left.
    + exfalso. apply (Hskip 0%nat); [lia|]. by split.
  - rewrite <- app_comm_cons in *. rewrite finditer_from_cons.
    destruct skip as [|k].
    + destruct (match_items ACCOM_RE []
                  (c :: pre ++ link_prefix ++ ds ++ post))
        as [[g rest]|] eqn:Hc.
      * apply elem_of_cons. right. apply IH.
        exact (pathless_match _ _ _ _ Hc).
      * apply IH. intros i Hi. lia.
    + apply IH. exact (pathless_tail _ _ _ Hskip).
Qed.

Lemma finditer_complete pre ds post :
  ds ≠ [] → is_digits ds → no_digit_ahead post →
  ds ∈ finditer ACCOM_RE (pre ++ link_prefix ++ ds ++ post).
Proof.
  intros. apply finditer_from_complete; [done..|]. intros i Hi. lia.
Qed.

(** *** The leftmost link of an anchor *)

Lemma no_link_no_match s :
  ¬ link_at s → match_items ACCOM_RE [] s = None.
Proof.
  intros Hs. destruct (match_items ACCOM_RE [] s) as [[g rest]|] eqn:Hm;
    [|done].
  apply ACCOM_RE_match in Hm as (-> & Hne & Hg & _).
  destruct g as [|d g]; [done|]. destruct Hs. exists d, (g ++ rest).
  split; [|done]. by inversion Hg.
Qed.

Lemma search_here pat s g rest :
  match_items pat [] s = Some (g, rest) → search pat s = Some g.
Proof. destruct s; simpl; by intros ->. Qed.

Lemma search_leftmost pre ds post :
  ds ≠ [] → is_digits ds → no_digit_ahead post →
  (∀ i, (i < List.length pre)%nat →
        ¬ link_at (drop i (pre ++ link_prefix ++ ds ++ post))) →
  search ACCOM_RE (pre ++ link_prefix ++ ds ++ post) = Some ds.
Proof.
  intros Hne Hds Hpost Hpre.
  rewrite search_skip by (intros i Hi; by apply no_link_no_match, Hpre).
  apply (search_here _ _ _ post). by apply ACCOM_RE_match.
Qed.

(** *** The count phrase *)

Lemma cls_letter c x : cls (letter c) x = true ↔ same_letter c x.
Proof.
  unfold same_letter. simpl. rewrite orb_true_iff.
  by destruct (Ascii.eqb_spec x c), (Ascii.eqb_spec x (capital c));
    split; (intros [?|?]; try done); (by left) || by right.
Qed.

Lemma match_letters p its g s r :
  match_items ((letter <$> p) ++ its) g s = Some r ↔
  ∃ w s', s = w ++ s' ∧ spelled p w ∧ match_items its g s' = Some r.
Proof.
  revert s. induction p as [|c p IH]; intros s.
  - simpl. split.
    + intros Hm. exists [], s. by repeat split; [constructor|].
    + intros (w & s' & -> & Hw & Hm). by inversion Hw.
  - rewrite fmap_cons, <- app_comm_cons. cbn [match_items].
    change (quant (letter c)) with One. split.
    + destruct s as [|x s]; [done|].
      destruct (cls (letter c) x) eqn:Hx; [|done].
      change (capture (letter c) g x) with g.
      intros (w & s' & -> & Hw & Hm)%IH. exists (x :: w), s'.
      split; [done|]. split; [|done]. constructor; [|done].
      by apply cls_letter.
    + intros (w & s' & -> & Hw & Hm).
      inversion Hw as [|? x ? w' Hx%cls_letter Hw']; subst.
      rewrite <- app_comm_cons, Hx. change (capture (letter c) g x) with g.
      apply IH. by exists w', s'.
Qed.

Lemma match_letters_end p g s g' rest :
  match_items (letter <$> p) g s = Some (g', rest) ↔
  ∃ w, s = w ++ rest ∧ spelled p w ∧ g' = g.
Proof.
  rewrite <- (app_nil_r (letter <$> p)), match_letters. simpl. split.
  - intros (w & s' & -> & Hw & [= -> ->]). by exists w.
  - intros (w & -> & Hw & ->). by exists w, rest.
Qed.

Lemma match_plus_inv it its g s r :
  quant it = Plus →
  match_items (it :: its) g s = Some r →
  ∃ run rest, s = run ++ rest ∧ run ≠ [] ∧
              Forall (λ c, cls it c = true) run ∧
              match_items its (g ++ captured it run) rest = Some r.
Proof.
  intros Hq (run & rest & -> & Hrun & Hne & Hm)%match_items_cons_inv.
  exists run, rest. split; [done|]. split; [|done].
  apply Hne. by rewrite Hq.
Qed.

Lemma match_plus it its g run rest r :
  quant it = Plus →
  run ≠ [] → Forall (λ c, cls it c = true) run →
  (∀ c rest', rest = c :: rest' → cls it c = false) →
  match_items its (g ++ captured it run) rest = Some r →
  match_items (it :: its) g (run ++ rest) = Some r.
Proof.
  intros Hq Hne Hrun Hrest Hm. destruct run as [|c run]; [done|].
  apply Forall_cons_1 in Hrun as [Hc Hrun].
  rewrite <- app_comm_cons. cbn [match_items]. rewrite Hq, Hc.
  apply more_greedy; [done..|].
  by rewrite capture_captured, <- app_assoc, <- captured_cons.
Qed.

Lemma match_opt_inv it its g s r :
  quant it = Opt →
  match_items (it :: its) g s = Some r →
  (∃ c s', s = c :: s' ∧ cls it c = true ∧
           match_items its (capture it g c) s' = Some r) ∨
  match_items its g s = Some r.
Proof.
  intros Hq. cbn [match_items]. rewrite Hq.
  destruct s as [|c s']; [by right|].
  destruct (cls it c) eqn:Hc; [|by right].
  destruct (match_items its (capture it g c) s') as [r'|] eqn:Hm;
    [|by right].
  intros [= ->]. left. by exists c, s'.
Qed.

Lemma match_opt_take it its g c s r :
  quant it = Opt → cls it c = true →
  match_items its (capture it g c) s = Some r →
  match_items (it :: its) g (c :: s) = Some r.
Proof. intros Hq Hc Hm. cbn [match_items]. by rewrite Hq, Hc, Hm. Qed.

Lemma match_opt_skip it its g s :
  quant it = Opt →
  (∀ c s', s = c :: s' → cls it c = false) →
  match_items (it :: its) g s = match_items its g s.
Proof.
  intros Hq Hs. cbn [match_items]. rewrite Hq.
  destruct s as [|c s']; [done|]. by rewrite (Hs c s').
Qed.

Lemma COUNT_RE_items :
  COUNT_RE =
  digits_group :: spaces :: (letter <$> logement)
  ++ plural :: spaces :: (letter <$> trouve).
Proof. done. Qed.

Lemma space_not_digit c : PyInt.is_space c = true → PyInt.is_digit c = false.
Proof.
  intros Hc. destruct (PyInt.is_digit c) eqn:Hd; [|done].
  by rewrite (PyIntFacts.is_digit_not_space c Hd) in Hc.
Qed.

Lemma letter_not_space c x :
  PyInt.is_space c = false → PyInt.is_space (capital c) = false →
  same_letter c x → PyInt.is_space x = false.
Proof. by intros ? ? [->| ->]. Qed.

Lemma space_not_letter c x :
  PyInt.is_space c = false → PyInt.is_space (capital c) = false →
  PyInt.is_space x = true → cls (letter c) x = false.
Proof.
  intros ? ? Hx. destruct (cls (letter c) x) eqn:Hc; [|done].
  apply cls_letter in Hc. by rewrite (letter_not_space c x) in Hx.
Qed.

(** A match of COUNT_RE is a count phrase, and the other way round. *)
Lemma COUNT_RE_match s g rest :
  match_items COUNT_RE [] s = Some (g, rest) ↔ count_phrase g rest s.
Proof.
  rewrite COUNT_RE_items. split.
  - intros (ds & s1 & -> & Hne & Hds & Hm)%match_plus_inv; [|done].
    change (captured digits_group ds) with ds in Hm.
    rewrite app_nil_l in Hm.
    apply match_plus_inv in Hm as (sp1 & s2 & -> & Hne1 & Hsp1 & Hm);
      [|done].
    change (captured spaces sp1) with (@nil ascii) in Hm.
    rewrite app_nil_r in Hm.
    apply match_letters in Hm as (w & s3 & -> & Hw & Hm).
    assert (∀ s4 pl, (pl = [] ∨ spelled ["s"%char] pl) →
              match_items (spaces :: (letter <$> trouve)) ds s4
              = Some (g, rest) →
              count_phrase g rest (ds ++ sp1 ++ w ++ pl ++ s4)) as Hrest.
    { intros s4 pl Hpl (sp2 & s5 & -> & Hne2 & Hsp2 & Hm')%match_plus_inv;
        [|done].
      change (captured spaces sp2) with (@nil ascii) in Hm'.
      rewrite app_nil_r in Hm'.
      apply match_letters_end in Hm' as (f & -> & Hf & ->).
      by exists sp1, w, pl, sp2, f. }
    apply match_opt_inv in Hm as [(c & s4 & -> & Hc & Hm)|Hm]; [| |done].
    + apply (Hrest s4 [c]); [|done]. right.
      constructor; [by apply cls_letter | constructor].
    + by apply (Hrest s3 []); [left|].
  - intros (sp1 & w & pl & sp2 & f & -> & Hne & Hg & Hne1 & Hsp1 & Hw & Hpl
            & Hne2 & Hsp2 & Hf).
    apply match_plus; [done..| |].
    { intros c rest' Heq. destruct sp1 as [|x sp1]; [done|].
      injection Heq as <- _. apply space_not_digit.
      by apply Forall_cons_1 in Hsp1 as [? _]. }
    change (captured digits_group g) with g. rewrite app_nil_l.
    apply match_plus; [done..| |].
    { intros c rest' Heq. inversion Hw as [|? x ? w' Hx Hw']; subst.
      injection Heq as <- _. by apply (letter_not_space "l"). }
    change (captured spaces sp1) with (@nil ascii). rewrite app_nil_r.
    apply match_letters. exists w, (pl ++ sp2 ++ f ++ rest).
    split; [done|]. split; [done|].
    assert (match_items (spaces :: (letter <$> trouve)) g
              (sp2 ++ f ++ rest) = Some (g, rest)) as Hm.
    { apply match_plus; [done..| |].
      { intros c rest' Heq. inversion Hf as [|? x ? f' Hx Hf']; subst.
        injection Heq as <- _. by apply (letter_not_space "t"). }
      change (captured spaces sp2) with (@nil ascii). rewrite app_nil_r.
      apply match_letters_end. by exists f. }
    destruct Hpl as [->|Hpl].
    + rewrite app_nil_l, match_opt_skip; [done | done |].
      intros c s' Heq. destruct sp2 as [|x sp2]; [done|].
      injection Heq as <- _. apply (space_not_letter "s"); [done..|].
      by apply Forall_cons_1 in Hsp2 as [? _].
    + inversion Hpl as [|? x ? ? Hx%cls_letter Hnil]; subst.
      inversion Hnil; subst.
      by apply match_opt_take.
Qed.

(** ** The extractor as a whole *)

Lemma search_None pat s :
  search pat s = None ↔ ∀ i, match_items pat [] (drop i s) = None.
Proof.
  induction s as [|c s IH].
  - cbn [search]. split.
    + intros Hm i. rewrite drop_nil. by destruct (match_items pat [] []) as [[]|].
    + intros Hm. pose proof (Hm 0%nat) as H0. simpl in H0. by rewrite H0.
  - cbn [search]. split.
    + destruct (match_items pat [] (c :: s)) as [[g rest]|] eqn:Hm; [done|].
      intros Hs i. destruct i as [|i]; [done|]. by apply IH.
    + intros Hm. pose proof (Hm 0%nat) as H0. simpl in H0. rewrite H0.
      apply IH. intros i. apply (Hm (S i)).
Qed.

Lemma search_first pat pre s g rest :
  (∀ i, (i < List.length pre)%nat →
        match_items pat [] (drop i (pre ++ s)) = None) →
  match_items pat [] s = Some (g, rest) →
  search pat (pre ++ s) = Some g.
Proof. intros Hpre Hm. rewrite search_skip by done. by eapply search_here. Qed.

Lemma digit_string_numeric (X : gset string) :
  (∀ s, s ∈ X → PyInt.digit_string s = true ∧ short s) → numeric X.
Proof.
  intros HX s Hs. destruct (HX s Hs) as [Hd Hsh].
  destruct (py_int_digit_string s Hd Hsh) as (k & ? & _). by exists k.
Qed.

Lemma digit_string_list id :
  PyInt.digit_string id = true →
  list_ascii_of_string id ≠ [] ∧ is_digits (list_ascii_of_string id).
Proof.
  unfold PyInt.digit_string, is_digits.
  destruct (list_ascii_of_string id) as [|c cs]; [done|].
  intros Hd. split; [done|]. apply Forall_forall. intros x Hx.
  rewrite forallb_forall in Hd. by apply Hd, list_elem_of_In.
Qed.

(** X1.  [parse_ids_and_count], on any HTML and any parse tree of it whose
    characters are code points below 256, where [\d] is the digits 0 to 9
    (on other text [\d] of a str pattern also matches the decimal digits
    of other scripts, which are outside the strings of this development).
    When it returns, every identifier is a non-empty string of the digits 0
    to 9 and the count, if there is one, is not negative.  It raises
    nothing but ValueError, and only when the visible text holds a run of
    more than 4300 digits, which int refuses to convert. *)
Theorem parse_ids_and_count_total bs html :
  match parse_ids_and_count bs html with
  | Ok (ids, count) =>
      (∀ id, id ∈ ids → PyInt.digit_string id = true) ∧
      ∀ n, count = Some n → 0 ≤ n
  | Raise e =>
      e = ValueError ∧
      ∃ pre g rest,
        list_ascii_of_string (visible_text (bs html)) = pre ++ g ++ rest ∧
        is_digits g ∧ int_max_str_digits < Z.of_nat (List.length g)
  end.
Proof.
  rewrite parse_count.
  destruct (search COUNT_RE _) as [g|] eqn:Hs.
  - destruct (count_group _ _ Hs) as (Hne & Hg & pre & rest & Htext).
    destruct (py_int_digits g Hne Hg) as (n & _ & Hn & ->).
    destruct (Z.ltb_spec int_max_str_digits (Z.of_nat (List.length g)));
      simpl.
    + split; [done|]. by exists pre, g, rest.
    + split; [|by intros ? [= <-]].
      intros id Hid. by apply ids_of_sound in Hid as [? _].
  - split; [|done]. intros id Hid. by apply ids_of_sound in Hid as [? _].
Qed.

(** X2.  Every identifier extracted is a non-empty string of digits that
    follows the path /tools/42/accommodations/ in the href of an anchor or
    in the HTML itself, and it is the whole run of digits found there. *)
Theorem extracted_ids_linked bs html ids count id :
  parse_ids_and_count bs html = Ok (ids, count) →
  id ∈ ids →
  PyInt.digit_string id = true ∧
  ((∃ href, href ∈ hrefs (bs html) ∧ linked id href) ∨ linked id html).
Proof.
  intros ->%parse_ids_and_count_ids Hid. by apply ids_of_sound.
Qed.

Lemma extracted_ids_linked_witness :
  PyInt.digit_string "77" = true ∧
  ((∃ href, href ∈ hrefs (sample_soup sample_html) ∧ linked "77" href)
   ∨ linked "77" sample_html).
Proof.
  apply (extracted_ids_linked sample_soup sample_html {[ "5"; "77" ]}
           (Some 3) "77").
  - vm_compute. reflexivity.
  - vm_compute. reflexivity.
Defined.

(** X3.  The scan of the full HTML misses no link: a run of digits that
    follows the path anywhere in the HTML, taken up to the first character
    that is no digit, is among the identifiers, whether or not an anchor
    holds it. *)
Theorem every_link_extracted bs html ids count id :
  parse_ids_and_count bs html = Ok (ids, count) →
  PyInt.digit_string id = true →
  linked id html →
  id ∈ ids.
Proof.
  intros ->%parse_ids_and_count_ids [Hne Hds]%digit_string_list
    (pre & post & Hhtml & Hpost).
  apply elem_of_ids_of. right. exists (list_ascii_of_string id).
  split; [|apply string_of_list_ascii_of_string].
  rewrite Hhtml. by apply finditer_complete.
Qed.

Lemma every_link_extracted_witness :
  "77" ∈ ({[ "5"; "77" ]} : gset string).
Proof.
  apply (every_link_extracted sample_soup sample_html {[ "5"; "77" ]}
           (Some 3) "77").
  - vm_compute. reflexivity.
  - reflexivity.
  - exists (list_ascii_of_string
              ("<a href='https://x.fr/tools/42/accommodations/5?x=1'>T1</a>"
               +:+ "<div data-url='")),
           (list_ascii_of_string
              ("'></div><p>Page 1 sur 2 : 3 logements trouv"
               +:+ String e_acute "s</p>")).
    split; [reflexivity|]. intros c rest' [= <- <-]. reflexivity.
Defined.

(** X4.  The identifier of the first link in the href of an anchor is
    among the identifiers, whatever form the HTML gives that href. *)
Theorem anchor_link_extracted bs html ids count href id pre post :
  parse_ids_and_count bs html = Ok (ids, count) →
  href ∈ hrefs (bs html) →
  PyInt.digit_string id = true →
  list_ascii_of_string href
  = pre ++ link_prefix ++ list_ascii_of_string id ++ post →
  no_digit_ahead post →
  (∀ i, (i < List.length pre)%nat →
        ¬ link_at (drop i (list_ascii_of_string href))) →
  id ∈ ids.
Proof.
  intros ->%parse_ids_and_count_ids Hin [Hne Hds]%digit_string_list
    Hhref Hpost Hpre.
  apply elem_of_ids_of. left. exists href. split; [done|].
  rewrite Hhref in *. rewrite search_leftmost by done.
  simpl. by rewrite string_of_list_ascii_of_string.
Qed.

Lemma anchor_link_extracted_witness :
  "5" ∈ ({[ "5"; "77" ]} : gset string).
Proof.
  apply (anchor_link_extracted sample_soup sample_html {[ "5"; "77" ]}
           (Some 3) "https://x.fr/tools/42/accommodations/5?x=1" "5"
           (list_ascii_of_string "https://x.fr")
           (list_ascii_of_string "?x=1")).
  - vm_compute. reflexivity.
  - left.
  - reflexivity.
  - reflexivity.
  - intros c rest' [= <- <-]. reflexivity.
  - intros i Hi (d & rest & _ & Heq). revert Heq.
    do 12 (destruct i as [|i]; [discriminate|]). simpl in Hi. lia.
Defined.

(** X5.  The count is read off the leftmost count phrase of the visible
    text (digits, white space, logement or logements, white space, trouve
    with its accent, in any letter case): it is the number the digits write,
    which is what int returns for them, and ValueError is raised instead
    when there are more than 4300 of them. *)
Theorem count_read bs html pre g rest s :
  list_ascii_of_string (visible_text (bs html)) = pre ++ s →
  count_phrase g rest s →
  (∀ i g' rest', (i < List.length pre)%nat →
                 ¬ count_phrase g' rest' (drop i (pre ++ s))) →
  ∃ ids n,
    PyInt.parse (string_of_list_ascii g) = Some n ∧ 0 ≤ n ∧
    py_int (string_of_list_ascii g) =
    (if int_max_str_digits <? Z.of_nat (List.length g)
     then Raise ValueError
     else Ok n) ∧
    parse_ids_and_count bs html =
    if int_max_str_digits <? Z.of_nat (List.length g)
    then Raise ValueError
    else Ok (ids, Some n).
Proof.
  intros Htext Hph Hpre.
  assert (search COUNT_RE (pre ++ s) = Some g) as Hs.
  { apply (search_first _ _ _ _ rest); [|by apply COUNT_RE_match].
    intros i Hi.
    destruct (match_items COUNT_RE [] (drop i (pre ++ s)))
      as [[g' rest']|] eqn:Hm; [|done].
    apply COUNT_RE_match in Hm. by destruct (Hpre i g' rest'). }
  destruct (count_group _ _ Hs) as (Hne & Hg & _).
  destruct (py_int_digits g Hne Hg) as (n & Hn & ? & Hlim).
  exists (ids_of bs html), n. split; [done|]. split; [done|].
  split; [done|].
  rewrite parse_count, Htext, Hs, Hlim. by destruct (_ <? _).
Qed.

Lemma count_read_witness :
  ∃ ids n,
    PyInt.parse "3" = Some n ∧ 0 ≤ n ∧ py_int "3" = Ok n ∧
    parse_ids_and_count sample_soup sample_html = Ok (ids, Some n).
Proof.
  apply (count_read sample_soup sample_html
           (list_ascii_of_string "T1 Page 1 sur 2 : ")
           (list_ascii_of_string "3") (list_ascii_of_string "s")
           (list_ascii_of_string ("3 logements trouv" +:+ String e_acute "s"))).
  - reflexivity.
  - apply COUNT_RE_match. vm_compute. reflexivity.
  - intros i g' rest' Hi Hph%COUNT_RE_match. revert Hph.
    do 18 (destruct i as [|i]; [vm_compute; discriminate|]).
    simpl in Hi. lia.
Defined.

(** X6.  [parse_ids_and_count] returns no count exactly when no position
    of the visible text begins a count phrase. *)
Theorem count_absent bs html :
  (∃ ids, parse_ids_and_count bs html = Ok (ids, None)) ↔
  ∀ i g rest,
    ¬ count_phrase g rest
        (drop i (list_ascii_of_string (visible_text (bs html)))).
Proof.
  rewrite parse_count. split.
  - intros [ids Hp] i g rest Hph%COUNT_RE_match.
    destruct (search COUNT_RE _) as [g'|] eqn:Hs.
    + destruct (py_int _); simpl in Hp; done.
    + rewrite search_None in Hs. by rewrite Hs in Hph.
  - intros Hno. assert (search COUNT_RE
      (list_ascii_of_string (visible_text (bs html))) = None) as ->.
    { apply search_None. intros i.
      destruct (match_items COUNT_RE [] _) as [[g rest]|] eqn:Hm; [|done].
      apply COUNT_RE_match in Hm. by destruct (Hno i g rest). }
    by exists (ids_of bs html).
Qed.



(** ** Runs that stop before the report *)

Lemma fetched_cases w :
  (∃ i p, (i < 3)%nat ∧ http_get w i = inr p ∧ fetched w = Ok p) ∨
  (∃ c0 c1 c2,
     (http_get w 0 = inl c0 ∧ http_get w 1 = inl c1 ∧ http_get w 2 = inl c2) ∧
     fetched w = Raise (RequestException c2) ∧
     fetch_log w = [Get 0; Sleep 2; Get 1; Sleep 4; Get 2; Sleep 6]).
Proof.
  unfold fetched, fetch_log, fetch_html. simpl seq. unfold fetch_loop.
  run_monad.
  destruct (http_get w 0) as [c0|p0] eqn:H0; simpl;
    [|left; exists 0%nat, p0; split; [lia | done]].
  destruct (http_get w 1) as [c1|p1] eqn:H1; simpl;
    [|left; exists 1%nat, p1; split; [lia | done]].
  destruct (http_get w 2) as [c2|p2] eqn:H2; simpl;
    [|left; exists 2%nat, p2; split; [lia | done]].
  right. by exists c0, c1, c2.
Qed.

Lemma py_set_raises v e : py_set v = Raise e → e = TypeError.
Proof.
  destruct v as [| | | |l|]; simpl; try congruence.
  destruct (rmap hashable l) as [|e'] eqn:Hl; simpl; [done|].
  intros [= ->]. apply rmap_Raise in Hl as (x & _ & Hx).
  destruct x; simpl in Hx; congruence.
Qed.

Lemma atom_int_raises a e :
  atom_int a = Raise e → e = TypeError ∨ e = ValueError.
Proof.
  destruct a; simpl; [intros [= <-]; by left | done |].
  intros ->%py_int_raises. by right.
Qed.

(** X7.  When the three requests fail, [main] ends with the exception of
    the third, after the requests and the sleeps of 2, 4 and 6 seconds, and
    has done nothing else: the state file is not read (it may even be
    malformed) nor written, and no message is sent. *)
Theorem fetch_failure_aborts w d :
  (∀ i, (i < 3)%nat → ∃ cause, http_get w i = inl cause) →
  ∃ cause,
    http_get w 2 = inl cause ∧
    run w d =
    (Raise (RequestException cause),
     {| disk := d;
        log := [Get 0; Sleep 2; Get 1; Sleep 4; Get 2; Sleep 6] |}).
Proof.
  intros Hw. rewrite run_eq. cbv zeta.
  destruct (fetched_cases w) as [(i & p & Hi & Hp & _)|Hfail].
  - destruct (Hw i Hi) as [cause Hc]. congruence.
  - destruct Hfail as (c0 & c1 & c2 & (_ & _ & H2) & -> & ->).
    by exists c2.
Qed.

Lemma fetch_failure_aborts_witness :
  ∃ cause,
    http_get unreachable 2 = inl cause ∧
    run unreachable (Some Malformed) =
    (Raise (RequestException cause),
     {| disk := Some Malformed;
        log := [Get 0; Sleep 2; Get 1; Sleep 4; Get 2; Sleep 6] |}).
Proof.
  apply (fetch_failure_aborts unreachable (Some Malformed)).
  intros i Hi. simpl. by eexists.
Defined.

(** X8.  A state file whose document cannot be used stops the run right
    after the fetch, with the file untouched and nothing sent: a document
    that is no object fails on state.get (AttributeError), and an object
    whose seen_ids set() refuses (a number, null, a list holding a list or
    an object) fails with TypeError. *)
Theorem unusable_state_aborts w d p v :
  fetched w = Ok p → d = Some (Document v) →
  let s := {| disk := d; log := fetch_log w |} in
  match v with
  | JObj kv =>
      ∀ e, py_set (dict_get "seen_ids" (JArr []) kv) = Raise e →
           run w d = (Raise TypeError, s)
  | _ => run w d = (Raise AttributeError, s)
  end.
Proof.
  intros Hp -> s. subst s.
  destruct v as [| | | | |kv]; try (by rewrite run_eq, Hp).
  intros e He. rewrite run_eq, Hp. cbn [loaded load_state disk fst].
  cbv zeta. rewrite He. by rewrite (py_set_raises _ _ He).
Qed.

Lemma unusable_state_aborts_witness :
  run (answering sample_page None)
      (Some (Document (JObj [("seen_ids", JInt 3)]))) =
  (Raise TypeError,
   {| disk := Some (Document (JObj [("seen_ids", JInt 3)]));
      log := fetch_log (answering sample_page None) |}).
Proof.
  exact (unusable_state_aborts (answering sample_page None)
           (Some (Document (JObj [("seen_ids", JInt 3)]))) sample_page
           (JObj [("seen_ids", JInt 3)]) eq_refl eq_refl TypeError eq_refl).
Defined.

(** ** The shape of a run *)

(** [main] is [main_io] when every write succeeds. *)
Lemma run_io_written w d : run_io (λ _, Written) w d = run w d.
Proof. reflexivity. Qed.

Lemma first_run_io_eq io w state X c s :
  first_run_io io w state X c s =
  match seen_list w X with
  | Raise e => (Raise e, s)
  | Ok seen =>
      let doc :=
        JObj (updated w seen c (dict_set "initialized" (JBool true) state)) in
      match io doc with
      | Written => first_run w state X c s
      | NotOpened e => (Raise e, s)
      | Interrupted e remains =>
          (Raise e, {| disk := Some remains; log := log s |})
      end
  end.
Proof.
  rewrite first_run_eq. unfold first_run_io, save_state_io, updated.
  run_monad. destruct (seen_list w X) as [seen|]; [simpl|done].
  destruct (io _); [|done..]. simpl.
  rewrite <- app_assoc. by destruct (telegram w).
Qed.

Lemma update_run_io_eq io w state old cold X c s :
  update_run_io io w state old cold X c s =
  match new_ids w X old with
  | Raise e => (Raise e, s)
  | Ok new =>
  match removed_ids w old X with
  | Raise e => (Raise e, s)
  | Ok rem =>
  match (if nonempty rem then join rem else Ok []) with
  | Raise e => (Raise e, s)
  | Ok names =>
      let parts := parts_of cold c new names in
      let s' := if nonempty parts
                then {| disk := disk s; log := log s ++ [Send (Update parts)] |}
                else s in
      match (if nonempty parts then telegram w else None) with
      | Some cause => (Raise (RequestException cause), s')
      | None =>
          match seen_list w X with
          | Raise e => (Raise e, s')
          | Ok seen =>
              let doc := JObj (updated w seen c state) in
              match io doc with
              | Written =>
                  (Ok (), {| disk := Some (Document doc);
                             log := log s' ++ [Save doc] |})
              | NotOpened e => (Raise e, s')
              | Interrupted e remains =>
                  (Raise e, {| disk := Some remains; log := log s' |})
              end
          end
      end
  end end end.
Proof.
  unfold update_run_io, save_state_io, updated, parts_of. run_monad.
  destruct (new_ids w X old) as [new|]; [simpl|done].
  destruct (removed_ids w old X) as [rem|]; [simpl|done].
  destruct rem as [|a rem]; simpl.
  - destruct c as [n|]; [destruct (negb (is_null cold) && differs n cold)|];
      destruct new; simpl;
      try destruct (telegram w); simpl; try done;
      destruct (seen_list w X); simpl; try done;
      destruct (io _); simpl; try done; by destruct s.
  - destruct (join (a :: rem)) as [names|] eqn:Hj; [simpl|done].
    assert (nonempty names = true) as Hne.
    { unfold join in Hj. simpl in Hj. destruct a; try done.
      simpl in Hj. destruct (rmap _ rem); simpl in Hj; [|done].
      by injection Hj as <-. }
    rewrite Hne.
    destruct c as [n|]; [destruct (negb (is_null cold) && differs n cold)|];
      destruct new; simpl;
      try destruct (telegram w); simpl; try done;
      destruct (seen_list w X); simpl; try done;
      destruct (io _); simpl; rewrite <- ?app_assoc; done.
Qed.

Lemma run_io_eq io w d :
  run_io io w d =
  let s := {| disk := d; log := fetch_log w |} in
  match fetched w with
  | Raise e => (Raise e, s)
  | Ok p =>
      match loaded d with
      | Raise e => (Raise e, s)
      | Ok (JObj kv) =>
          match py_set (dict_get "seen_ids" (JArr []) kv) with
          | Raise e => (Raise e, s)
          | Ok ids_old =>
              if truthy (dict_get "initialized" (JBool false) kv)
              then update_run_io io w kv ids_old
                     (dict_get "last_count" JNull kv)
                     (listing_ids p) (shown_count p) s
              else first_run_io io w kv (listing_ids p) (shown_count p) s
          end
      | Ok _ => (Raise AttributeError, s)
      end
  end.
Proof.
  unfold run_io, main_io. unfold mbind at 1, M_bind at 1.
  rewrite fetch_html_run. simpl.
  destruct (fetched w) as [p|]; [|done].
  unfold parse_ids_and_count. unfold mbind at 1, M_bind at 1.
  rewrite load_state_run. simpl.
  destruct (loaded d) as [[| | | | |kv]|]; try done.
  unfold mbind at 1, M_bind at 1, lift at 1.
  destruct (py_set _); [|done].
  by destruct (truthy _).
Qed.

(** X9.  The effects of any run, whatever the site answers, whatever the
    state file holds and whether or not the state file can be written.
    After the requests of the fetch the run has sent nothing or one update
    message and failed, with the state file untouched or, when the write
    broke off, left as the failed write left it; or it has saved and then
    sent the confirmation (first run); or sent the update and then saved;
    or only saved.  So a run sends one message at most and writes once at
    most, the file changes only by that write, a write that fails ends the
    run, and a run that ends without exception has saved. *)
Theorem run_io_shape io w d :
  let r := run_io io w d in
  ∃ tail,
    log r.2 = fetch_log w ++ tail ∧
    ((∃ e, r.1 = Raise e ∧
           (tail = [] ∨ ∃ parts, tail = [Send (Update parts)]) ∧
           (disk r.2 = d ∨
            ∃ doc remains, io doc = Interrupted e remains ∧ disk r.2 = Some remains)) ∨
     (∃ doc n, io doc = Written ∧
               tail = [Save doc; Send (Initialized n)] ∧
               disk r.2 = Some (Document doc) ∧
               r.1 = match telegram w with
                     | Some cause => Raise (RequestException cause)
                     | None => Ok ()
                     end) ∨
     (∃ parts doc, io doc = Written ∧
                   tail = [Send (Update parts); Save doc] ∧
                   disk r.2 = Some (Document doc) ∧ r.1 = Ok ()) ∨
     (∃ doc, io doc = Written ∧ tail = [Save doc] ∧
             disk r.2 = Some (Document doc) ∧ r.1 = Ok ())).
Proof.
  cbv zeta. rewrite run_io_eq. cbv zeta.
  set (stopped (r : result unit * store) (tail : list event) :=
         log r.2 = fetch_log w ++ tail ∧
         ∃ e, r.1 = Raise e ∧
              (tail = [] ∨ ∃ parts, tail = [Send (Update parts)]) ∧
              (disk r.2 = d ∨
               ∃ doc remains, io doc = Interrupted e remains ∧
                           disk r.2 = Some remains)).
  assert (∀ r tail, stopped r tail →
            ∃ tail,
              log r.2 = fetch_log w ++ tail ∧
              ((∃ e, r.1 = Raise e ∧
                     (tail = [] ∨ ∃ parts, tail = [Send (Update parts)]) ∧
                     (disk r.2 = d ∨
                      ∃ doc remains, io doc = Interrupted e remains ∧
                                  disk r.2 = Some remains)) ∨
               (∃ doc n, io doc = Written ∧
                         tail = [Save doc; Send (Initialized n)] ∧
                         disk r.2 = Some (Document doc) ∧
                         r.1 = match telegram w with
                               | Some cause => Raise (RequestException cause)
                               | None => Ok ()
                               end) ∨
               (∃ parts doc, io doc = Written ∧
                             tail = [Send (Update parts); Save doc] ∧
                             disk r.2 = Some (Document doc) ∧ r.1 = Ok ()) ∨
               (∃ doc, io doc = Written ∧ tail = [Save doc] ∧
                       disk r.2 = Some (Document doc) ∧ r.1 = Ok ())))
    as Hstopped.
  { intros r tail [Hlog Hr]. exists tail. split; [done | by left]. }
  assert (∀ e, stopped (Raise e, {| disk := d; log := fetch_log w |}) [])
    as Hquiet.
  { intros e. split; [by rewrite app_nil_r|]. exists e. simpl.
    split; [done|]. split; by left. }
  destruct (fetched w) as [p|]; [|apply (Hstopped _ []), Hquiet].
  destruct (loaded d) as [[| | | | |kv]|]; try apply (Hstopped _ []), Hquiet.
  destruct (py_set _) as [old|]; [|apply (Hstopped _ []), Hquiet].
  destruct (truthy _).
  - rewrite update_run_io_eq.
    destruct (new_ids _ _ _) as [new|]; [|apply (Hstopped _ []), Hquiet].
    destruct (removed_ids _ _ _) as [rem|]; [|apply (Hstopped _ []), Hquiet].
    destruct (if nonempty rem then join rem else Ok []) as [names|];
      [|apply (Hstopped _ []), Hquiet].
    cbv zeta. set (parts := parts_of _ _ _ _). cbn [disk log].
    destruct (nonempty parts).
    + assert (∀ e, stopped
                (Raise e, {| disk := d;
                             log := fetch_log w ++ [Send (Update parts)] |})
                [Send (Update parts)]) as Hsent.
      { intros e. split; [done|]. exists e. simpl. split; [done|].
        split; [right; by eexists | by left]. }
      destruct (telegram w) as [cause|]; [apply (Hstopped _ [Send (Update parts)]), Hsent|].
      destruct (seen_list w (listing_ids p)) as [seen|];
        [|apply (Hstopped _ [Send (Update parts)]), Hsent].
      destruct (io _) as [|e|e remains] eqn:Hio; [|apply (Hstopped _ [Send (Update parts)]), Hsent|].
      * exists [Send (Update parts);
                Save (JObj (updated w seen (shown_count p) kv))].
        split; [simpl; by rewrite <- app_assoc|]. do 2 right. left.
        by do 2 eexists.
      * apply (Hstopped _ [Send (Update parts)]). split; [done|].
        exists e. simpl. split; [done|].
        split; [right; by eexists|]. right. by do 2 eexists.
    + destruct (seen_list w (listing_ids p)) as [seen|];
        [|apply (Hstopped _ []), Hquiet].
      destruct (io _) as [|e|e remains] eqn:Hio; [|apply (Hstopped _ []), Hquiet|].
      * eexists. split; [done|]. do 3 right. by eexists.
      * apply (Hstopped _ []). split; [by rewrite app_nil_r|].
        exists e. simpl. split; [done|].
        split; [by left|]. right. by do 2 eexists.
  - rewrite first_run_io_eq.
    destruct (seen_list w (listing_ids p)) as [seen|] eqn:Hseen;
      [|apply (Hstopped _ []), Hquiet].
    cbv zeta. destruct (io _) as [|e|e remains] eqn:Hio;
      [|apply (Hstopped _ []), Hquiet|].
    + rewrite first_run_eq, Hseen. cbv zeta. cbn [log].
      eexists. split; [done|]. right. left. by do 2 eexists.
    + apply (Hstopped _ []). split; [by rewrite app_nil_r|].
      exists e. simpl. split; [done|].
      split; [by left|]. right. by do 2 eexists.
Qed.

(* a write that breaks off after the message was sent: the run fails, the
   message is out and the state file is left unreadable *)
Lemma interrupted_save_after_message :
  let w := answering sample_page None in
  let d := Some (Document (JObj annotated)) in
  run_io refusing w d =
  (Raise (OSError "No space left on device"),
   {| disk := Some Malformed;
      log := [Get 0;
              Send (Update [CountChanged (JInt 2) 3;
                            NewListings ["13"]])] |}).
Proof. by vm_compute. Qed.

(** ** What a save writes *)

Lemma run_saved_doc w d kv doc :
  loaded d = Ok (JObj kv) →
  doc ∈ saves (log (run w d).2) →
  ∃ seen c,
    doc = JObj (updated w seen c kv) ∧
    truthy (dict_get "initialized" (JBool false) kv) = true ∨
    doc = JObj (updated w seen c (dict_set "initialized" (JBool true) kv)).
Proof.
  intros Hd. rewrite run_eq, Hd. cbv zeta.
  destruct (fetch_log_quiet w) as [Hsv _].
  destruct (fetched w) as [p|]; [|simpl; rewrite Hsv; by intros ?%elem_of_nil].
  destruct (py_set _) as [old|];
    [|simpl; rewrite Hsv; by intros ?%elem_of_nil].
  destruct (truthy _) eqn:Hinit.
  - rewrite update_run_eq.
    destruct (new_ids _ _ _) as [new|];
      [|simpl; rewrite Hsv; by intros ?%elem_of_nil].
    destruct (removed_ids _ _ _) as [rem|];
      [|simpl; rewrite Hsv; by intros ?%elem_of_nil].
    destruct (if nonempty rem then join rem else Ok []) as [names|];
      [|simpl; rewrite Hsv; by intros ?%elem_of_nil].
    cbv zeta. set (parts := parts_of _ _ _ _). cbn [disk log].
    assert (saves (log (if nonempty parts
                        then {| disk := d;
                                log := fetch_log w ++ [Send (Update parts)] |}
                        else {| disk := d; log := fetch_log w |})) = [])
      as Hs'.
    { destruct (nonempty parts); simpl; [|done]. by rewrite saves_app, Hsv. }
    destruct (if nonempty parts then telegram w else None);
      [simpl; rewrite Hs'; by intros ?%elem_of_nil|].
    destruct (seen_list w (listing_ids p)) as [seen|];
      [|simpl; rewrite Hs'; by intros ?%elem_of_nil].
    simpl. rewrite saves_app, Hs'. simpl.
    intros ->%list_elem_of_singleton. exists seen, (shown_count p). by left.
  - rewrite first_run_eq.
    destruct (seen_list w (listing_ids p)) as [seen|];
      [|simpl; rewrite Hsv; by intros ?%elem_of_nil].
    simpl. rewrite saves_app, Hsv. simpl.
    intros ->%list_elem_of_singleton. exists seen, (shown_count p). by right.
Qed.

(** X10.  A save rewrites the keys of the program and nothing else: the
    document saved is an object marked initialized, dated with the clock of
    the run, and every other key of the document loaded is still there with
    its value. *)
Theorem foreign_keys_kept w d kv doc :
  loaded d = Ok (JObj kv) →
  doc ∈ saves (log (run w d).2) →
  ∃ kv',
    doc = JObj kv' ∧
    truthy (dict_get "initialized" (JBool false) kv') = true ∧
    dict_get "last_checked_epoch" JNull kv' = JInt (clock w) ∧
    ∀ k def,
      k ∉ ["initialized"; "seen_ids"; "last_count"; "last_checked_epoch"] →
      dict_get k def kv' = dict_get k def kv.
Proof.
  intros Hd Hdoc.
  assert (∀ seen c kv0 k def,
            k ∉ ["initialized"; "seen_ids"; "last_count";
                 "last_checked_epoch"] →
            dict_get k def (updated w seen c kv0) = dict_get k def kv0)
    as Hkeep.
  { intros seen c kv0 k def Hk. unfold updated.
    rewrite !dict_get_set_ne; [done|..]; intros ->; apply Hk;
      repeat first [by left | right]. }
  destruct (run_saved_doc w d kv doc Hd Hdoc) as (seen & c & [[-> Hi]| ->]).
  - eexists. split; [done|]. split; [by rewrite updated_initialized|].
    split; [apply dict_get_set|]. intros k def Hk. by apply Hkeep.
  - eexists. split; [done|].
    split; [by rewrite updated_initialized, dict_get_set|].
    split; [apply dict_get_set|]. intros k def Hk.
    rewrite Hkeep by done. apply dict_get_set_ne. intros ->. apply Hk.
    by left.
Qed.

Lemma foreign_keys_kept_witness :
  ∃ kv',
    JObj [("initialized", JBool true);
          ("seen_ids", JArr [JStr "11"; JStr "12"; JStr "13"]);
          ("last_count", JInt 3); ("note", JStr "keep");
          ("last_checked_epoch", JInt 1700000000)] = JObj kv' ∧
    truthy (dict_get "initialized" (JBool false) kv') = true ∧
    dict_get "last_checked_epoch" JNull kv' = JInt 1700000000 ∧
    ∀ k def,
      k ∉ ["initialized"; "seen_ids"; "last_count"; "last_checked_epoch"] →
      dict_get k def kv' = dict_get k def annotated.
Proof.
  apply (foreign_keys_kept (answering sample_page None)
           (Some (Document (JObj annotated))) annotated).
  - reflexivity.
  - vm_compute. left.
Defined.

(** ** A stored list that holds something else than strings *)

Lemma join_strings rem names a :
  join rem = Ok names → a ∈ rem → ∃ s, a = AStr s.
Proof.
  unfold join. intros Hj%rmap_Ok_Forall2 Ha.
  induction Hj as [|x y rem' names' Hx _ IH]; [by apply elem_of_nil in Ha|].
  apply elem_of_cons in Ha as [->|Ha]; [|by apply IH].
  destruct x; try done. by eexists.
Qed.

Lemma join_raises rem e : join rem = Raise e → e = TypeError.
Proof.
  unfold join. intros (a & _ & Ha)%rmap_Raise. destruct a; congruence.
Qed.

Lemma py_set_elem l old v :
  py_set (JArr l) = Ok old → v ∈ l → ∃ a, hashable v = Ok a ∧ a ∈ old.
Proof.
  simpl. destruct (rmap hashable l) as [xs|] eqn:Hl; [simpl|done].
  intros [= <-] Hv. apply rmap_Ok_Forall2 in Hl.
  induction Hl as [|x y l' xs' Hx _ IH]; [by apply elem_of_nil in Hv|].
  apply elem_of_cons in Hv as [->|Hv].
  - exists y. split; [done|]. apply elem_of_list_to_set. by left.
  - destruct (IH Hv) as (a & ? & Ha). exists a. split; [done|].
    apply elem_of_list_to_set. right. by apply elem_of_list_to_set in Ha.
Qed.

(** X11.  An initialized record whose seen_ids is a list of the values of
    [json] (null, booleans, integers, strings, lists and objects: numbers
    with a fraction or an exponent, Infinity and NaN are not among them)
    and holds anything else than strings stops every run that fetched a
    page, with TypeError or ValueError, before any message and before any
    save: the file stays as it is, so the next run meets the same
    record. *)
Theorem non_string_id_aborts w d p kv l v :
  fetched w = Ok p → d = Some (Document (JObj kv)) →
  truthy (dict_get "initialized" (JBool false) kv) = true →
  dict_get "seen_ids" (JArr []) kv = JArr l →
  v ∈ l → (∀ s, v ≠ JStr s) →
  ∃ e, (e = TypeError ∨ e = ValueError) ∧
       run w d = (Raise e, {| disk := d; log := fetch_log w |}).
Proof.
  intros Hp -> Hinit Hseen Hv Hstr. rewrite run_eq, Hp.
  cbn [loaded load_state disk fst]. cbv zeta. rewrite Hseen, Hinit.
  destruct (py_set (JArr l)) as [old|e] eqn:Hold.
  2:{ exists e. split; [|done]. left. by eapply py_set_raises. }
  rewrite update_run_eq.
  destruct (new_ids _ _ _) as [new|e] eqn:Hnew.
  2:{ exists e. split; [|done]. right.
      apply sorted_Raise in Hnew as (x & _ & Hx).
      by eapply py_int_raises. }
  destruct (removed_ids _ _ _) as [rem|e] eqn:Hrem.
  2:{ exists e. split; [|done].
      apply sorted_Raise in Hrem as (x & _ & Hx).
      by eapply atom_int_raises. }
  destruct (py_set_elem l old v Hold Hv) as (a & Ha & Hin).
  assert (a ∈ rem) as Harem.
  { apply sorted_Ok in Hrem as [Hperm _]. rewrite Hperm.
    apply enumerate_elem.
    unfold removed_set. apply elem_of_difference. split; [done|].
    intros (s & -> & _)%elem_of_map.
    destruct v as [| | |s'| |]; simpl in Ha; try done.
    by destruct (Hstr s'). }
  assert (nonempty rem = true) as ->.
  { destruct rem; [by apply elem_of_nil in Harem | done]. }
  destruct (join rem) as [names|e] eqn:Hj.
  - destruct (join_strings rem names a Hj Harem) as [s ->].
    destruct v as [| | |s'| |]; simpl in Ha; try done.
    by destruct (Hstr s').
  - exists e. split; [|done]. left. by eapply join_raises.
Qed.

Lemma non_string_id_aborts_witness :
  ∃ e, (e = TypeError ∨ e = ValueError) ∧
       run (answering sample_page None) (Some (Document (JObj mistyped))) =
       (Raise e, {| disk := Some (Document (JObj mistyped));
                    log := fetch_log (answering sample_page None) |}).
Proof.
  apply (non_string_id_aborts (answering sample_page None)
           (Some (Document (JObj mistyped))) sample_page mistyped
           [JStr "11"; JInt 12] (JInt 12)).
  - reflexivity.
  - reflexivity.
  - reflexivity.
  - reflexivity.
  - right. left.
  - discriminate.
Defined.


(** ** Runs on the pages of the extractor *)

Lemma page_of_digits bs html p s :
  page_of bs html = Ok p → s ∈ listing_ids p → PyInt.digit_string s = true.
Proof.
  unfold page_of.
  destruct (parse_ids_and_count bs html) as [[ids count]|] eqn:Hparse;
    [|done].
  apply parse_ids_and_count_ids in Hparse as ->.
  simpl. intros [= <-] Hs. by apply ids_of_sound in Hs as [? _].
Qed.

Lemma kept_loaded d :
  kept d →
  ∃ st, loaded d = Ok (to_json st) ∧
        (initialized st = true → d = Some (Document (to_json st))) ∧
        ∀ s, s ∈ seen_ids st → PyInt.digit_string s = true ∧ short s.
Proof.
  intros [->|(st & -> & Hst)].
  - exists no_record. split; [done|]. split; [done|].
    by intros s ?%elem_of_nil.
  - by exists st.
Qed.

Lemma run_kept bs w d :
  served bs w → kept d →
  benign (run w d).1 ∧ kept (disk (run w d).2).
Proof.
  intros Hw Hd.
  destruct (fetched_cases w) as [(i & p & _ & Hi & Hp)|Hfail].
  2:{ destruct Hfail as (c0 & c1 & c2 & _ & Hf & _).
      rewrite run_eq, Hf. simpl. split; [right; by eexists | done]. }
  destruct (Hw i p Hi) as [[html Hhtml] Hshort].
  assert (∀ s, s ∈ listing_ids p → PyInt.digit_string s = true ∧ short s)
    as Hdig.
  { intros s Hs. split; [by apply (page_of_digits bs html p) | by apply Hshort]. }
  destruct (kept_loaded d Hd) as (st & Hst & Hinit & Hseen).
  destruct (initialized st) eqn:Hi'.
  - destruct (update_run_observed w d st p Hp Hst Hi')
      as (_ & _ & _ & _ & seen & [Hperm _] & Hrun).
    { apply numeric_union; apply digit_string_numeric.
      - intros s Hs. apply Hseen. by apply elem_of_list_to_set in Hs.
      - intros s Hs. by apply Hdig. }
    destruct (if nonempty _ then telegram w else None) as [cause|].
    + destruct Hrun as (-> & -> & _). split; [right; by eexists | done].
    + destruct Hrun as (-> & -> & _). split; [by left|]. right.
      eexists. split; [done|]. simpl. intros s Hs. apply Hdig.
      by rewrite Hperm, elem_of_elements in Hs.
  - destruct (first_run_observed w d st p Hp Hst Hi')
      as (seen & [Hperm _] & -> & -> & _).
    { apply digit_string_numeric. intros s Hs. by apply Hdig. }
    split.
    + destruct (telegram w); [right; by eexists | by left].
    + right. eexists. split; [done|]. simpl. intros s Hs. apply Hdig.
      by rewrite Hperm, elem_of_elements in Hs.
Qed.

(** X12.  From no state file, or from a record of the program with short
    strings of digits, and over any sequence of runs on pages the extractor
    read (with identifiers of at most 4300 digits): every run ends well or
    on a failed request (the fetch or Telegram), never on an error of
    [main] itself, and the state file is again such a record. *)
Theorem extracted_runs_benign bs ws d :
  kept d → Forall (served bs) ws →
  Forall benign (outcomes ws d) ∧ kept (runs ws d).
Proof.
  intros Hd Hws. revert d Hd.
  induction Hws as [|w ws Hw _ IH]; intros d Hd; simpl.
  - split; [constructor | done].
  - destruct (run_kept bs w d Hw Hd) as [Hb Hk].
    destruct (IH _ Hk) as [Hbs Hks]. split; [by constructor | done].
Qed.

Lemma sample_served tg : served sample_soup (answering sample_extracted tg).
Proof.
  intros i p [= <-]. split.
  - exists sample_html. vm_compute. reflexivity.
  - intros s [->%elem_of_singleton| ->%elem_of_singleton]%elem_of_union;
      by vm_compute.
Qed.

Lemma extracted_runs_benign_witness :
  Forall benign
    (outcomes [answering sample_extracted (Some "timeout");
               answering sample_extracted None] None) ∧
  kept (runs [answering sample_extracted (Some "timeout");
              answering sample_extracted None] None).
Proof.
  apply (extracted_runs_benign sample_soup).
  - by left.
  - constructor; [apply sample_served|].
    constructor; [apply sample_served|]. constructor.
Defined.



(** ** Two runs in a row *)

Lemma updated_last_count w seen c kv def :
  dict_get "last_count" def (updated w seen c kv) = count_json c.
Proof.
  unfold updated. rewrite dict_get_set_ne by done. apply dict_get_set.
Qed.

Lemma new_ids_raises w X old e : new_ids w X old = Raise e → e = ValueError.
Proof. intros (x & _ & Hx)%sorted_Raise. by eapply py_int_raises. Qed.

Lemma removed_ids_raises w old X e :
  removed_ids w old X = Raise e → e = TypeError ∨ e = ValueError.
Proof. intros (x & _ & Hx)%sorted_Raise. by eapply atom_int_raises. Qed.

Lemma seen_list_numeric w X seen : seen_list w X = Ok seen → numeric X.
Proof.
  intros [Hp [Hok _]%ascending_by_keys]%seen_list_Ok s Hs.
  rewrite Forall_forall in Hok. apply Hok.
  by rewrite Hp, elem_of_elements.
Qed.

Lemma parts_of_same c : parts_of (count_json c) c [] [] = [].
Proof. unfold parts_of. destruct c; simpl; [|done]. by rewrite Z.eqb_refl. Qed.

(* a run that ends well leaves a record of the page *)
Lemma run_ok_inv w d p :
  fetched w = Ok p → (run w d).1 = Ok () →
  ∃ kv seen,
    seen_list w (listing_ids p) = Ok seen ∧
    truthy (dict_get "initialized" (JBool false) kv) = true ∧
    disk (run w d).2 =
    Some (Document (JObj (updated w seen (shown_count p) kv))).
Proof.
  intros Hp. rewrite run_eq, Hp. cbv zeta.
  destruct (loaded d) as [[| | | | |kv]|]; try done.
  destruct (py_set _) as [old|]; [|done].
  destruct (truthy _) eqn:Hinit.
  - rewrite update_run_eq.
    destruct (new_ids _ _ _) as [new|]; [|done].
    destruct (removed_ids _ _ _) as [rem|]; [|done].
    destruct (if nonempty rem then join rem else Ok []) as [names|]; [|done].
    cbv zeta. destruct (if nonempty _ then telegram w else None); [done|].
    destruct (seen_list w (listing_ids p)) as [seen|] eqn:Hseen; [|done].
    intros _. by exists kv, seen.
  - rewrite first_run_eq.
    destruct (seen_list w (listing_ids p)) as [seen|] eqn:Hseen; [|done].
    intros _. exists (dict_set "initialized" (JBool true) kv), seen.
    split; [done|]. split; [by rewrite dict_get_set | done].
Qed.

(* the run after: the same page, from the record just left *)
Lemma rerun_eq w w' p kv seen :
  fetched w' = Ok p →
  seen_list w (listing_ids p) = Ok seen →
  truthy (dict_get "initialized" (JBool false) kv) = true →
  let kv' := updated w seen (shown_count p) kv in
  ∃ seen',
    seen_list w' (listing_ids p) = Ok seen' ∧
    run w' (Some (Document (JObj kv'))) =
    (Ok (),
     {| disk := Some (Document
                        (JObj (updated w' seen' (shown_count p) kv')));
        log := fetch_log w' ++
               [Save (JObj (updated w' seen' (shown_count p) kv'))] |}).
Proof.
  intros Hp Hseen Hinit kv'.
  destruct (seen_list_total w' (listing_ids p)) as [seen' Hseen'].
  { by eapply seen_list_numeric. }
  exists seen'. split; [done|].
  rewrite run_eq, Hp. cbn [loaded load_state disk fst]. cbv zeta.
  unfold kv'. rewrite updated_seen_ids, py_set_strings, updated_initialized.
  rewrite Hinit, updated_last_count, update_run_eq.
  unfold new_ids, removed_ids.
  rewrite new_set_strings, removed_set_strings.
  rewrite (seen_list_set _ _ _ Hseen).
  rewrite difference_diag_L, set_map_empty, !enumerate_empty.
  cbn [sorted decorate rmap rbind sort_keyed foldr fmap list_fmap nonempty].
  rewrite parts_of_same. cbn [nonempty]. by rewrite Hseen'.
Qed.

(** X13.  After a run that ended without exception, a run that fetches
    the same page sends nothing and ends without exception, whatever the
    first state file held; it saves the record again, with the same
    identifiers and count and its own clock. *)
Theorem no_repeated_alert w w' d p :
  fetched w = Ok p → fetched w' = Ok p → (run w d).1 = Ok () →
  let d' := disk (run w d).2 in
  let r' := run w' d' in
  r'.1 = Ok () ∧ sends (log r'.2) = [] ∧
  ∃ kv seen seen',
    d' = Some (Document (JObj kv)) ∧
    dict_get "seen_ids" JNull kv = JArr (JStr <$> seen) ∧
    seen' ≡ₚ seen ∧
    disk r'.2 =
    Some (Document (JObj (updated w' seen' (shown_count p) kv))).
Proof.
  intros Hp Hp' Hok d' r'.
  destruct (run_ok_inv w d p Hp Hok) as (kv & seen & Hseen & Hinit & Hd').
  destruct (rerun_eq w w' p kv seen Hp' Hseen Hinit) as (seen' & Hseen' & Hr).
  unfold r', d'. rewrite Hd', Hr. cbn [fst snd log disk].
  split; [done|]. split.
  { rewrite sends_app. by destruct (fetch_log_quiet w') as [_ ->]. }
  eexists _, seen, seen'. split; [done|].
  split; [apply updated_seen_ids|]. split; [|done].
  apply seen_list_Ok in Hseen as [Hperm _].
  apply seen_list_Ok in Hseen' as [Hperm' _]. by rewrite Hperm, Hperm'.
Qed.

Lemma no_repeated_alert_witness :
  let w := answering sample_page None in
  let d' := disk (run w (file_of sample_prior)).2 in
  let r' := run w d' in
  r'.1 = Ok () ∧ sends (log r'.2) = [] ∧
  ∃ kv seen seen',
    d' = Some (Document (JObj kv)) ∧
    dict_get "seen_ids" JNull kv = JArr (JStr <$> seen) ∧
    seen' ≡ₚ seen ∧
    disk r'.2 =
    Some (Document (JObj (updated w seen' (shown_count sample_page) kv))).
Proof.
  apply (no_repeated_alert (answering sample_page None)
           (answering sample_page None) (file_of sample_prior) sample_page);
    reflexivity.
Defined.

(** ** A notification that failed *)

Lemma is_initialized_inv d :
  is_initialized d = true →
  ∃ kv, d = Some (Document (JObj kv)) ∧
        truthy (dict_get "initialized" (JBool false) kv) = true.
Proof.
  destruct d as [[|[| | | | |kv]]|]; try done. intros ?. by exists kv.
Qed.

(* the same elements in another order are sorted as well, into a
   rearrangement *)
Lemma sorted_reorder {A} (key : A → result Z) l l' r :
  l ≡ₚ l' → sorted key l = Ok r →
  ∃ r', sorted key l' = Ok r' ∧ r' ≡ₚ r.
Proof.
  intros Hp Hr. destruct (sorted_Ok _ _ _ Hr) as [Hpr [Hk _]%ascending_by_keys].
  destruct (sorted_total key l') as [r' Hr'].
  { intros x Hx. rewrite Forall_forall in Hk. apply Hk.
    by rewrite Hpr, Hp. }
  exists r'. split; [done|].
  destruct (sorted_Ok _ _ _ Hr') as [Hpr' _]. by rewrite Hpr', <- Hp, Hpr.
Qed.

Lemma enumerate_reorder (o o' : iteration) `{Countable A} (X : gset A) :
  enumerate o X ≡ₚ enumerate o' X.
Proof. by rewrite !enumerate_elements. Qed.

Lemma join_fmap rem names : join rem = Ok names → rem = AStr <$> names.
Proof.
  unfold join. intros Hj%rmap_Ok_Forall2.
  induction Hj as [|a s rem' names' Ha _ IH]; [done|].
  destruct a; try done. injection Ha as ->. by rewrite IH.
Qed.

Lemma join_strings_Ok names : join (AStr <$> names) = Ok names.
Proof.
  unfold join. induction names as [|s names IH]; csimpl; [done|].
  by rewrite IH.
Qed.

Lemma join_reorder rem rem' names :
  rem ≡ₚ rem' → join rem = Ok names →
  ∃ names', join rem' = Ok names' ∧ names' ≡ₚ names.
Proof.
  intros Hp ->%join_fmap.
  set (g := λ a, match a with AStr s => Some s | _ => None end).
  assert (omap g (AStr <$> names) = names) as Hnames.
  { clear. induction names as [|s names IH]; csimpl; [done|]. by rewrite IH. }
  assert (rem' = AStr <$> omap g rem') as Heq.
  { assert (Forall (λ a, ∃ s, a = AStr s) rem') as Hall.
    { apply Forall_forall. intros a Ha. rewrite <- Hp in Ha.
      apply list_elem_of_fmap in Ha as (s & -> & _). by exists s. }
    clear -Hall. induction Hall as [|a rem' [s ->] _ IH]; csimpl; [done|].
    by rewrite <- IH. }
  exists (omap g rem'). split; [rewrite Heq at 1; apply join_strings_Ok|].
  by rewrite <- Hp, Hnames.
Qed.

Lemma nonempty_Permutation {A} (l l' : list A) :
  l ≡ₚ l' → nonempty l' = nonempty l.
Proof.
  intros Hp. destruct l, l'; try done.
  - by apply Permutation_nil_l in Hp.
  - by apply Permutation_nil_r in Hp.
Qed.

Lemma nonempty_parts_reorder cold c new new' gone gone' :
  new' ≡ₚ new → gone' ≡ₚ gone →
  nonempty (parts_of cold c new' gone')
  = nonempty (parts_of cold c new gone).
Proof.
  intros Hn Hg.
  destruct (nonempty (parts_of cold c new gone)) eqn:H1,
           (nonempty (parts_of cold c new' gone')) eqn:H2; try done.
  - apply nonempty_parts_of in H2 as (Hc & Hn' & Hg'). subst new' gone'.
    symmetry in Hn, Hg. apply Permutation_nil_r in Hn, Hg. subst new gone.
    rewrite <- H1. symmetry. by apply nonempty_parts_of.
  - apply nonempty_parts_of in H1 as (Hc & Hn' & Hg'). subst new gone.
    apply Permutation_nil_r in Hn, Hg. subst new' gone'.
    rewrite <- H2. by apply nonempty_parts_of.
Qed.

(** X14.  A change whose notification failed is not lost: when an
    initialized run ends on the failure of Telegram, the state file is left
    as it was and one update was attempted; the next run that fetches the
    same page, whatever its enumeration of sets and its clock, once
    Telegram answers, sends an update with the same change of count and
    the same new and gone identifiers, and ends well.  The identifiers may
    come in another order where two of them have the same integer; under
    the same enumeration the message is the same. *)
Theorem failed_update_is_retried w w' d p cause :
  fetched w = Ok p → fetched w' = Ok p → telegram w' = None →
  numeric (listing_ids p) →
  is_initialized d = true →
  (run w d).1 = Raise (RequestException cause) →
  let r := run w d in
  let r' := run w' (disk r.2) in
  disk r.2 = d ∧
  (∃ parts, parts ≠ [] ∧ sends (log r.2) = [Update parts]) ∧
  (∃ parts', parts' ≠ [] ∧ sends (log r'.2) = [Update parts']) ∧
  count_change (log r'.2) = count_change (log r.2) ∧
  added (log r'.2) ≡ₚ added (log r.2) ∧
  removed (log r'.2) ≡ₚ removed (log r.2) ∧
  (hash_order w' = hash_order w → sends (log r'.2) = sends (log r.2)) ∧
  r'.1 = Ok ().
Proof.
  intros Hp Hp' Htg' Hnum (kv & -> & Hinit)%is_initialized_inv.
  cbv zeta.
  pose proof (run_eq w' (Some (Document (JObj kv)))) as Hrun'.
  pose proof (run_eq w (Some (Document (JObj kv)))) as Hrun.
  rewrite Hp in Hrun. rewrite Hp' in Hrun'.
  cbn [loaded load_state disk fst] in Hrun, Hrun'. cbv zeta in Hrun, Hrun'.
  rewrite Hinit in Hrun, Hrun'.
  destruct (py_set _) as [old|e] eqn:Hold.
  2:{ rewrite Hrun. simpl. intros [= ->].
      by apply py_set_raises in Hold. }
  rewrite update_run_eq in Hrun, Hrun'. rewrite Htg' in Hrun'.
  destruct (new_ids w _ _) as [new|e] eqn:Hnew.
  2:{ rewrite Hrun. simpl. intros [= ->].
      by apply new_ids_raises in Hnew. }
  destruct (removed_ids w _ _) as [rem|e] eqn:Hrem.
  2:{ rewrite Hrun. simpl. intros [= ->].
      by apply removed_ids_raises in Hrem as [?|?]. }
  destruct (if nonempty rem then join rem else Ok []) as [names|e] eqn:Hj.
  2:{ rewrite Hrun. simpl. intros [= ->].
      destruct (nonempty rem); [|done]. by apply join_raises in Hj. }
  (* the differences of the second run *)
  destruct (sorted_reorder py_int _
              (enumerate (hash_order w')
                 (new_set (listing_ids p) old)) new
              (enumerate_reorder _ _ _) Hnew) as (new' & Hnew' & Hpn).
  destruct (sorted_reorder atom_int _
              (enumerate (hash_order w')
                 (removed_set old (listing_ids p))) rem
              (enumerate_reorder _ _ _) Hrem) as (rem' & Hrem' & Hpr).
  fold (new_ids w' (listing_ids p) old) in Hnew'.
  fold (removed_ids w' old (listing_ids p)) in Hrem'.
  assert (∃ names', (if nonempty rem' then join rem' else Ok []) = Ok names'
                    ∧ names' ≡ₚ names) as (names' & Hj' & Hpj).
  { rewrite (nonempty_Permutation rem rem') by done.
    destruct (nonempty rem).
    - by apply (join_reorder rem).
    - injection Hj as <-. by exists []. }
  rewrite Hnew', Hrem', Hj' in Hrun'.
  cbv zeta in Hrun, Hrun'. cbn [disk log] in Hrun, Hrun'.
  destruct (seen_list_total w' (listing_ids p) Hnum) as [seen' Hseen'].
  destruct (seen_list_total w (listing_ids p) Hnum) as [seen Hseen].
  rewrite Hseen' in Hrun'. rewrite Hseen in Hrun.
  set (cold := dict_get "last_count" JNull kv) in *.
  set (parts := parts_of cold (shown_count p) new names) in *.
  set (parts' := parts_of cold (shown_count p) new' names') in *.
  assert (nonempty parts' = nonempty parts) as Hne'
    by by apply nonempty_parts_reorder.
  rewrite Hne' in Hrun'.
  destruct (nonempty parts) eqn:Hne.
  2:{ by rewrite Hrun. }
  destruct (telegram w) as [cause'|] eqn:Htg.
  2:{ by rewrite Hrun. }
  rewrite Hrun. cbn [fst snd disk log]. rewrite Hrun'.
  cbn [fst snd disk log]. intros _.
  destruct (update_log_sends w parts []) as [Hs Hsp]; [done|].
  destruct (update_log_sends w' parts'
              [Save (JObj (updated w' seen' (shown_count p) kv))])
    as [Hs' Hsp']; [done|].
  rewrite Hne, app_nil_r in Hs, Hsp. rewrite Hne' in Hs', Hsp'.
  rewrite <- app_assoc.
  split; [done|]. split; [exists parts; split; [by destruct parts | done]|].
  split; [exists parts'; split; [by destruct parts' | done]|].
  assert (hash_order w' = hash_order w → parts' = parts) as Hsame.
  { intros Ho. unfold new_ids, removed_ids in Hnew, Hnew', Hrem, Hrem'.
    rewrite Ho in Hnew', Hrem'.
    assert (new' = new) as -> by congruence.
    assert (rem' = rem) as -> by congruence.
    assert (names' = names) as -> by congruence. done. }
  split.
  { unfold count_change. rewrite Hsp, Hsp'. unfold parts, parts'.
    by rewrite !count_change_parts_of. }
  split.
  { unfold added. rewrite Hsp, Hsp'. unfold parts, parts'.
    by rewrite !added_parts_of. }
  split.
  { unfold removed. rewrite Hsp, Hsp'. unfold parts, parts'.
    by rewrite !removed_parts_of. }
  split; [|done]. intros Ho. by rewrite Hs, Hs', (Hsame Ho).
Qed.

Lemma failed_update_is_retried_witness :
  let w := twins elements_order (Some "timeout") in
  let w' := twins reverse_order None in
  let d := file_of (record_of ["3"] (Some 1)) in
  let r := run w d in
  let r' := run w' (disk r.2) in
  (sends (log r.2) = [Update [CountChanged (JInt 1) 2; NewListings ["7"; "07"];
                              Disappeared ["3"]]] ∧
   sends (log r'.2) = [Update [CountChanged (JInt 1) 2; NewListings ["07"; "7"];
                               Disappeared ["3"]]]) ∧
  disk r.2 = d ∧
  count_change (log r'.2) = count_change (log r.2) ∧
  added (log r'.2) ≡ₚ added (log r.2) ∧
  removed (log r'.2) ≡ₚ removed (log r.2) ∧
  r'.1 = Ok ().
Proof.
  intros w w' d r r'. split; [split; by vm_compute|].
  destruct (failed_update_is_retried w w' d (snapshot ["7"; "07"] (Some 2))
              "timeout") as (? & _ & _ & ? & ? & ? & _ & ?).
  - reflexivity.
  - reflexivity.
  - reflexivity.
  - apply (numeric_accepted ["7"; "07"]). reflexivity.
  - reflexivity.
  - reflexivity.
  - done.
Defined.

(** ** The confirmation of the first run *)

Lemma initialized_sends w d m :
  is_initialized d = true →
  m ∈ sends (log (run w d).2) → ∃ parts, m = Update parts.
Proof.
  intros (kv & -> & Hinit)%is_initialized_inv. rewrite run_eq.
  cbn [loaded load_state disk fst]. cbv zeta. rewrite Hinit.
  destruct (fetch_log_quiet w) as [_ Hsd].
  destruct (fetched w) as [p|]; [|simpl; rewrite Hsd; by intros ?%elem_of_nil].
  destruct (py_set _) as [old|];
    [|simpl; rewrite Hsd; by intros ?%elem_of_nil].
  rewrite update_run_eq.
  destruct (new_ids _ _ _) as [new|];
    [|simpl; rewrite Hsd; by intros ?%elem_of_nil].
  destruct (removed_ids _ _ _) as [rem|];
    [|simpl; rewrite Hsd; by intros ?%elem_of_nil].
  destruct (if nonempty rem then join rem else Ok []) as [names|];
    [|simpl; rewrite Hsd; by intros ?%elem_of_nil].
  cbv zeta. set (parts := parts_of _ _ _ _). cbn [disk log].
  assert (∀ rest, sends rest = [] →
            m ∈ sends (log (if nonempty parts
                            then {| disk := Some (Document (JObj kv));
                                    log := fetch_log w
                                           ++ [Send (Update parts)] |}
                            else {| disk := Some (Document (JObj kv));
                                    log := fetch_log w |}) ++ rest) →
            ∃ parts, m = Update parts) as Hm.
  { intros rest Hrest. rewrite sends_app, Hrest, app_nil_r.
    destruct (nonempty parts); simpl; rewrite ?sends_app, Hsd;
      [|by intros ?%elem_of_nil].
    simpl. intros ->%list_elem_of_singleton. by eexists. }
  destruct (if nonempty parts then telegram w else None).
  { simpl. intros Hin. apply (Hm []); [done|]. by rewrite app_nil_r. }
  destruct (seen_list w (listing_ids p)) as [seen|].
  - simpl. by apply Hm.
  - simpl. intros Hin. apply (Hm []); [done|]. by rewrite app_nil_r.
Qed.

(** X15.  The confirmation of the first run is not sent again.  When
    Telegram fails on it, the run ends on that failure with the baseline
    already saved, so that every later run is an update run: whatever it
    sends is an update, never the confirmation. *)
Theorem failed_confirmation_not_repeated w d st p cause :
  fetched w = Ok p → loaded d = Ok (to_json st) → initialized st = false →
  numeric (listing_ids p) → telegram w = Some cause →
  let r := run w d in
  r.1 = Raise (RequestException cause) ∧
  (∃ n, sends (log r.2) = [Initialized n]) ∧
  is_initialized (disk r.2) = true ∧
  ∀ ws w' m,
    m ∈ sends (log (run w' (runs ws (disk r.2))).2) →
    ∃ parts, m = Update parts.
Proof.
  intros Hp Hd Hi Hnum Htg r.
  destruct (first_run_observed w d st p Hp Hd Hi Hnum)
    as (seen & _ & Hres & Hdisk & _ & Hsends & _).
  fold r in Hres, Hdisk, Hsends. rewrite Htg in Hres.
  assert (is_initialized (disk r.2) = true) as Hinit by by rewrite Hdisk.
  split; [done|]. split; [by eexists|]. split; [done|].
  intros ws w' m. apply initialized_sends. by apply runs_initialized.
Qed.

Lemma failed_confirmation_not_repeated_witness :
  let r := run (answering sample_page (Some "timeout")) None in
  r.1 = Raise (RequestException "timeout") ∧
  (∃ n, sends (log r.2) = [Initialized n]) ∧
  is_initialized (disk r.2) = true ∧
  ∀ ws w' m,
    m ∈ sends (log (run w' (runs ws (disk r.2))).2) →
    ∃ parts, m = Update parts.
Proof.
  apply (failed_confirmation_not_repeated
           (answering sample_page (Some "timeout")) None no_record
           sample_page "timeout").
  - reflexivity.
  - reflexivity.
  - reflexivity.
  - apply (numeric_accepted ["11"; "12"; "13"]). reflexivity.
  - reflexivity.
Defined.
